(** * The OpenRouter chat-completion client of Stagehand

    A shallow embedding of [src/examples/example_openrouter.ts]
    ([validateZodSchema] and [OpenRouterClient.createChatCompletion]) and
    the properties its specification states about it. *)

From Stdlib Require Import String Ascii List Bool Arith Lia.
Import ListNotations.
Local Open Scope string_scope.
Local Open Scope list_scope.

(** ** Strings

    A JavaScript string is the sequence of its code units.  The development
    covers the code units below 256, which [ascii] holds; the regular
    expressions and [trim] work on the list of code units. *)

Definition chars (s : string) : list ascii := list_ascii_of_string s.
Definition text (l : list ascii) : string := string_of_list_ascii l.

Definition LF : ascii := "010"%char.
Definition DQUOTE : ascii := "034"%char.

(** [\s], and the characters [trim] removes: the white space and line
    terminators of ECMAScript among the code units below 256 (TAB, LF, VT,
    FF, CR, SP and NBSP). *)
Definition is_ws (c : ascii) : bool :=
  let n := nat_of_ascii c in
  existsb (Nat.eqb n) [9; 10; 11; 12; 13; 32; 160].

(** ** Regular expressions, as far as the source uses them

    A backtracking matcher with the semantics of ECMAScript for the
    operators that occur in the source: [^], [$], literal text, a greedy
    star over a character class and a greedy optional group. *)

Inductive regex : Type :=
| Bol                          (* ^ *)
| Eol                          (* $ *)
| Lit (cs : list ascii)        (* literal text *)
| Star (p : ascii -> bool)     (* p*, greedy *)
| Opt (r : regex)              (* (?:r)?, greedy *)
| Cat (r1 r2 : regex).

(** A position is the index [i] reached and the input left after it. *)
Definition Cont := nat -> list ascii -> option (nat * list ascii).

Fixpoint lit (cs rest : list ascii) : option (list ascii) :=
  match cs with
  | [] => Some rest
  | c :: cs' =>
      match rest with
      | d :: rest' => if Ascii.eqb c d then lit cs' rest' else None
      | [] => None
      end
  end.

Fixpoint star (p : ascii -> bool) (i : nat) (rest : list ascii) (k : Cont)
  : option (nat * list ascii) :=
  match rest with
  | c :: t =>
      if p c then
        match star p (S i) t k with
        | Some r => Some r
        | None => k i rest
        end
      else k i rest
  | [] => k i []
  end.

Fixpoint run (r : regex) (i : nat) (rest : list ascii) (k : Cont)
  : option (nat * list ascii) :=
  match r with
  | Bol => if Nat.eqb i 0 then k i rest else None
  | Eol => match rest with [] => k i rest | _ :: _ => None end
  | Lit cs =>
      match lit cs rest with
      | Some rest' => k (i + length cs) rest'
      | None => None
      end
  | Star p => star p i rest k
  | Opt r' =>
      match run r' i rest k with
      | Some x => Some x
      | None => k i rest
      end
  | Cat r1 r2 => run r1 i rest (fun i' rest' => run r2 i' rest' k)
  end.

(** The match of [r] that starts at index [i]: where it ends, if any. *)
Definition exec (r : regex) (i : nat) (rest : list ascii)
  : option (nat * list ascii) :=
  run r i rest (fun i' rest' => Some (i', rest')).

(** [String.prototype.replace] with a global regular expression and a
    constant replacement.  [skip] counts the code units of the current match
    still to be dropped; with [skip = 0] the next match is looked for at the
    current index, and an empty match moves on by one code unit. *)
Fixpoint replaceFrom (r : regex) (repl : list ascii) (i skip : nat)
  (rest : list ascii) : list ascii :=
  match rest with
  | [] =>
      match skip with
      | 0 => match exec r i [] with Some _ => repl | None => [] end
      | S _ => []
      end
  | c :: t =>
      match skip with
      | S skip' => replaceFrom r repl (S i) skip' t
      | 0 =>
          match exec r i rest with
          | Some (j, _) =>
              if Nat.eqb j i then repl ++ c :: replaceFrom r repl (S i) 0 t
              else repl ++ replaceFrom r repl (S i) (j - i - 1) t
          | None => c :: replaceFrom r repl (S i) 0 t
          end
      end
  end.

Definition replace (r : regex) (repl : list ascii) (s : list ascii)
  : list ascii :=
  replaceFrom r repl 0 0 s.

Fixpoint trimStart (s : list ascii) : list ascii :=
  match s with
  | c :: t => if is_ws c then trimStart t else s
  | [] => []
  end.

Definition trimEnd (s : list ascii) : list ascii := rev (trimStart (rev s)).

Definition trim (s : list ascii) : list ascii := trimEnd (trimStart s).

(** The code fence. *)
Definition fence : list ascii := chars "```".

(** [/^\s*```(?:json)?\n?/g] *)
Definition openingFence : regex :=
  Cat Bol (Cat (Star is_ws) (Cat (Lit fence)
    (Cat (Opt (Lit (chars "json"))) (Opt (Lit [LF]))))).

(** [/\n?```\s*$/g] *)
Definition closingFence : regex :=
  Cat (Opt (Lit [LF])) (Cat (Lit fence) (Cat (Star is_ws) Eol)).

Definition stripOpening (s : list ascii) : list ascii :=
  replace openingFence [] s.

Definition stripClosing (s : list ascii) : list ascii :=
  replace closingFence [] s.

(** The cleaning of [extractedData]: the two [replace] calls, each with
    the empty replacement, then [trim]. *)
Definition cleanContent (extractedData : string) : string :=
  text (trim (stripClosing (stripOpening (chars extractedData)))).


(** What the two replacements remove, said without the matcher. *)
Definition dropPrefix (p s : list ascii) : list ascii :=
  match lit p s with
  | Some r => r
  | None => s
  end.

Definition dropSuffix (p s : list ascii) : list ascii :=
  rev (dropPrefix (rev p) (rev s)).

(** The text after the opening fence: after the backticks, an optional
    json and an optional line feed. *)
Definition afterOpening (r : list ascii) : list ascii :=
  dropPrefix [LF] (dropPrefix (chars "json") r).

(** Whether the text holds a fence somewhere. *)
Fixpoint hasFence (s : list ascii) : bool :=
  match s with
  | [] => false
  | _ :: t =>
      match lit fence s with
      | Some _ => true
      | None => hasFence t
      end
  end.

Definition fenceFree (s : list ascii) : Prop := hasFence s = false.

(** The closing pattern matches at the start of [s]: an optional line
    feed, the fence, and white space up to the end. *)
Definition fenceToEnd (r : list ascii) : bool :=
  match lit fence r with
  | Some w => forallb is_ws w
  | None => false
  end.

Definition closesHere (s : list ascii) : bool :=
  match lit [LF] s with
  | Some r => fenceToEnd r || fenceToEnd s
  | None => fenceToEnd s
  end.

(** The opening marker as the specification words it, with the white space
    after the backticks, and the cleaning step built on it. *)
Definition spec_openingFence : regex :=
  Cat Bol (Cat (Lit fence) (Cat (Star is_ws)
    (Cat (Opt (Lit (chars "json"))) (Opt (Lit [LF]))))).

Definition spec_cleanContent (extractedData : string) : string :=
  text (trim (replace closingFence []
    (replace spec_openingFence [] (chars extractedData)))).

(** ** What the client takes from its environment

    The zod schema objects, the values [JSON.parse] returns and the helpers
    of the openai and zod packages are not code of the client.  A thrown
    [Error] is modelled by its [message]. *)

Class Externs := {
  Schema : Type;                 (* z.ZodTypeAny *)
  Json : Type;                   (* a value returned by JSON.parse *)
  JsNumber : Type;               (* the sampling parameters *)
  Image : Type;                  (* options.image *)
  ToolParameters : Type;         (* tool.parameters *)
  ResponseFormat : Type;         (* what zodResponseFormat returns *)
  Schema_eq_dec : forall a b : Schema, {a = b} + {a <> b};
  JsNumber_eq_dec : forall a b : JsNumber, {a = b} + {a <> b};
  Image_eq_dec : forall a b : Image, {a = b} + {a <> b};
  (* JSON.parse(text): the value, or the message of the SyntaxError *)
  JSON_parse : string -> string + Json;
  (* JSON.stringify(schema) *)
  JSON_stringify : Schema -> string;
  (* schema.parse(data): the parsed value, or the message of what it throws *)
  Schema_parse : Schema -> Json -> string + Json;
  zodResponseFormat : Schema -> string -> ResponseFormat;
  (* the truth value of a parsed value in a condition *)
  ToBoolean : Json -> bool
}.

Section Client.

Context {E : Externs}.

(** ** validateZodSchema *)

(** A computation that returns a value or throws. *)
Definition Throws (A : Type) : Type := (string + A)%type.

Definition try_catch {A : Type} (body : Throws A) (handler : string -> Throws A)
  : Throws A :=
  match body with
  | inl error => handler error
  | inr a => inr a
  end.

Definition validateZodSchema (schema : Schema) (data : Json) : Throws bool :=
  try_catch
    (match Schema_parse schema data with
     | inl error => inl error
     | inr _ => inr true
     end)
    (fun _ => inr false).

(** ** Data *)

Inductive Role : Type := system | user | assistant.

(** A content part of a caller's message: an image part carries the
    [image_url] property, a text part does not. *)
Inductive ContentPart : Type :=
| ImageContent (url : string)
| TextContent (txt : string).

Inductive MessageContent : Type :=
| Plain (s : string)
| Parts (parts : list ContentPart).

Record ChatMessage : Type := {
  role : Role;
  content : MessageContent
}.

(** The parts the provider takes, [{image_url: {url}, type}] and
    [{text, type}]. *)
Inductive WirePart : Type :=
| ImagePart (url : string)
| TextPart (txt : string).

Definition part_type (p : WirePart) : string :=
  match p with
  | ImagePart _ => "image_url"
  | TextPart _ => "text"
  end.

Inductive WireContent : Type :=
| WPlain (s : string)
| WParts (parts : list WirePart).

Record WireMessage : Type := {
  w_role : Role;
  w_content : WireContent
}.

Record ResponseModel : Type := {
  name : string;
  schema : Schema
}.

Record Tool : Type := {
  tool_name : string;
  tool_description : string;
  tool_parameters : ToolParameters
}.

(** [{function: {name, description, parameters}, type}] *)
Record WireTool : Type := {
  wt_function : Tool;
  wt_type : string
}.

(** The options of a call, without [messages]: the array [options.messages]
    is mutated in place and shared, so it lives in the state. *)
Record Options : Type := {
  temperature : option JsNumber;
  top_p : option JsNumber;
  frequency_penalty : option JsNumber;
  presence_penalty : option JsNumber;
  image : option Image;
  response_model : option ResponseModel;
  tools : option (list Tool);
  requestId : string
}.

Record CacheOptions : Type := {
  co_model : string;
  co_messages : list ChatMessage;
  co_temperature : option JsNumber;
  co_top_p : option JsNumber;
  co_frequency_penalty : option JsNumber;
  co_presence_penalty : option JsNumber;
  co_image : option Image;
  co_response_model : option ResponseModel
}.

(** ChatCompletionCreateParamsNonStreaming, as the client fills it. *)
Record Body : Type := {
  b_temperature : option JsNumber;
  b_top_p : option JsNumber;
  b_frequency_penalty : option JsNumber;
  b_presence_penalty : option JsNumber;
  b_response_model : option ResponseModel;
  b_model : string;
  b_messages : list WireMessage;
  b_response_format : option ResponseFormat;
  b_stream : bool;
  b_tools : option (list WireTool)
}.

Record ResponseMessage : Type := {
  msg_content : option string
}.

Record Choice : Type := {
  message : option ResponseMessage
}.

Record ChatCompletion : Type := {
  id : string;
  choices : option (list Choice)
}.

(** What a call returns and what the cache holds: the parsed data or the
    response itself. *)
Inductive Value : Type :=
| Parsed (data : Json)
| Raw (response : ChatCompletion).

Inductive Outcome : Type :=
| Returned (v : Value)
| Thrown (error : string).

(** What awaiting [client.chat.completions.create(body)] gives. *)
Inductive ApiResult : Type :=
| Rejected (error : string)
| Resolved (response : option ChatCompletion).

(** The log events.  The argument of a [JSON.stringify] is kept as it is. *)
Inductive Payload : Type :=
| PText (s : string)
| POptions (o : Options) (msgs : list ChatMessage)
| POpenRouterOptions (o : Options) (msgs : list ChatMessage) (model : string)
| PResponse (r : option ChatCompletion)
| PValue (v : Value).

Record LogLine : Type := {
  category : string;
  log_message : string;
  level : nat;
  auxiliary : list (string * (Payload * string))
}.

(** ** The response cache *)

Definition ResponseModel_eq_dec (a b : ResponseModel) : {a = b} + {a <> b}.
Proof.
  decide equality; [apply Schema_eq_dec | apply string_dec].
Defined.

Definition ChatMessage_eq_dec (a b : ChatMessage) : {a = b} + {a <> b}.
Proof.
  repeat decide equality.
Defined.

Definition CacheOptions_eq_dec (a b : CacheOptions) : {a = b} + {a <> b}.
Proof.
  decide equality;
    try (apply (list_eq_dec ChatMessage_eq_dec));
    try apply string_dec;
    decide equality;
    first [apply JsNumber_eq_dec | apply Image_eq_dec | apply ResponseModel_eq_dec].
Defined.

(** Modelled from the spec: the cache collaborator [LLMCache]
    (lib/cache/LLMCache is not among the sources).  Section 4.4:
    get(key, requestId) gives a result or is absent, set(key, value,
    requestId) stores, the last write wins; section 3: the request
    identifier is a secondary handle of an entry and takes no part in
    finding it. *)
Definition LLMCache : Type := list (CacheOptions * (Value * string)).

(** Modelled from the spec: [LLMCache.get], the lookup by the key; what is
    absent is [None]. *)
Fixpoint cache_get (key : CacheOptions) (rid : string) (c : LLMCache)
  : option Value :=
  match c with
  | [] => None
  | (k, (v, _)) :: c' =>
      if CacheOptions_eq_dec key k then Some v else cache_get key rid c'
  end.

(** Modelled from the spec: [LLMCache.set]; the entry replaces the one
    stored for the key before. *)
Definition cache_set (key : CacheOptions) (v : Value) (rid : string)
  (c : LLMCache) : LLMCache :=
  (key, (v, rid))
    :: filter (fun e => if CacheOptions_eq_dec key (fst e) then false else true) c.

(** ** The client and the state it works on *)

Record OpenRouterClient : Type := {
  modelName : string;
  enableCaching : bool;
  (* client.chat.completions.create: the bodies sent before, and this one *)
  create : list Body -> Body -> ApiResult
}.

Record State : Type := {
  messages : list ChatMessage;     (* the array options.messages *)
  cache : option LLMCache;         (* this.cache *)
  calls : list Body;               (* the bodies sent, oldest first *)
  logs : list LogLine              (* what logger was called with *)
}.

Definition logger (l : LogLine) (st : State) : State :=
  {| messages := messages st; cache := cache st; calls := calls st;
     logs := logs st ++ [l] |}.

Definition push (m : ChatMessage) (st : State) : State :=
  {| messages := messages st ++ [m]; cache := cache st; calls := calls st;
     logs := logs st |}.

Definition sent (b : Body) (st : State) : State :=
  {| messages := messages st; cache := cache st; calls := calls st ++ [b];
     logs := logs st |}.

(** [if (this.enableCaching) this.cache.set(cacheOptions, value, requestId)] *)
Definition store (self : OpenRouterClient) (key : CacheOptions) (v : Value)
  (rid : string) (st : State) : State :=
  if enableCaching self then
    {| messages := messages st;
       cache := option_map (cache_set key v rid) (cache st);
       calls := calls st; logs := logs st |}
  else st.

(** The truth value of a cached response in [if (cachedResponse)]. *)
Definition truthy (v : Value) : bool :=
  match v with
  | Parsed data => ToBoolean data
  | Raw _ => true
  end.

(** [cacheOptions]; its [messages] is the array of the options, read when
    the cache is called. *)
Definition cacheOptions (self : OpenRouterClient) (options : Options)
  (msgs : list ChatMessage) : CacheOptions :=
  {| co_model := modelName self;
     co_messages := msgs;
     co_temperature := temperature options;
     co_top_p := top_p options;
     co_frequency_penalty := frequency_penalty options;
     co_presence_penalty := presence_penalty options;
     co_image := image options;
     co_response_model := response_model options |}.

(** The system message of the Gemini branch. *)
Definition schemaInstruction (rm : ResponseModel) : ChatMessage :=
  {| role := system;
     content := Plain
       ("Please format your response according to this schema:"
        ++ String LF (JSON_stringify (schema rm)
        ++ String LF (String LF
           "Respond with only the JSON object, no additional text or formatting."))) |}.

Definition isGemini (self : OpenRouterClient) : bool :=
  prefix "google/gemini" (modelName self).

(** Lines 177-192: the response format, and the message pushed. *)
Definition applyResponseModel (self : OpenRouterClient) (options : Options)
  (st : State) : option ResponseFormat * State :=
  match response_model options with
  | Some rm =>
      if isGemini self then (None, push (schemaInstruction rm) st)
      else (Some (zodResponseFormat (schema rm) (name rm)), st)
  | None => (None, st)
  end.

(** ** The message formatter *)

Definition formatPart (c : ContentPart) : WirePart :=
  match c with
  | ImageContent url => ImagePart url
  | TextContent txt => TextPart txt
  end.

Definition isText (c : WirePart) : bool := String.eqb (part_type c) "text".

Definition formatMessage (m : ChatMessage) : WireMessage :=
  match content m with
  | Parts parts =>
      let contentParts := map formatPart parts in
      match role m with
      | system =>
          {| w_role := system; w_content := WParts (filter isText contentParts) |}
      | user =>
          {| w_role := user; w_content := WParts contentParts |}
      | assistant =>
          {| w_role := assistant; w_content := WParts (filter isText contentParts) |}
      end
  | Plain s => {| w_role := user; w_content := WPlain s |}
  end.

Definition formatTool (t : Tool) : WireTool :=
  {| wt_function := t; wt_type := "function" |}.

Definition mkBody (self : OpenRouterClient) (options : Options)
  (responseFormat : option ResponseFormat) (msgs : list ChatMessage) : Body :=
  {| b_temperature := temperature options;
     b_top_p := top_p options;
     b_frequency_penalty := frequency_penalty options;
     b_presence_penalty := presence_penalty options;
     b_response_model := response_model options;
     b_model := modelName self;
     b_messages := map formatMessage msgs;
     b_response_format := responseFormat;
     b_stream := false;
     b_tools := option_map (map formatTool) (tools options) |}.

(** [response?.choices?.[0]?.message] *)
Definition firstMessage (response : option ChatCompletion)
  : option ResponseMessage :=
  match response with
  | Some r =>
      match choices r with
      | Some (c :: _) => message c
      | _ => None
      end
  | None => None
  end.

(** ** createChatCompletion *)

Definition creatingLog (self : OpenRouterClient) (options : Options)
  (msgs : list ChatMessage) : LogLine :=
  {| category := "openrouter"; log_message := "creating chat completion";
     level := 1;
     auxiliary := [("options", (POptions options msgs, "object"));
                   ("modelName", (PText (modelName self), "string"))] |}.

Definition cacheHitLog (options : Options) (v : Value) : LogLine :=
  {| category := "llm_cache";
     log_message := "LLM cache hit - returning cached response";
     level := 1;
     auxiliary := [("requestId", (PText (requestId options), "string"));
                   ("cachedResponse", (PValue v, "object"))] |}.

Definition sendingLog (self : OpenRouterClient) (options : Options)
  (msgs : list ChatMessage) : LogLine :=
  {| category := "openrouter"; log_message := "creating chat completion";
     level := 1;
     auxiliary := [("openRouterOptions",
                    (POpenRouterOptions options msgs (modelName self), "object"))] |}.

Definition responseLog (options : Options) (r : option ChatCompletion)
  : LogLine :=
  {| category := "openrouter"; log_message := "response"; level := 1;
     auxiliary := [("response", (PResponse r, "object"));
                   ("requestId", (PText (requestId options), "string"))] |}.

Definition parseFailureLog (error extractedData : string) : LogLine :=
  {| category := "openrouter"; log_message := "Failed to parse response";
     level := 0;
     auxiliary := [("error", (PText error, "string"));
                   ("content", (PText extractedData, "string"))] |}.

Definition Run : Type := State -> Outcome * State.

(** [if (retries > 0) return this.createChatCompletion(...retries - 1);
     throw new Error(error)]: [retry] is the recursive call, present when
    [retries > 0]. *)
Definition retryOrThrow (retry : option Run) (error : string) : Run :=
  fun st =>
    match retry with
    | Some again => again st
    | None => (Thrown error, st)
    end.

(** Lines 315-378, the path with a [response_model]. *)
Definition extract (self : OpenRouterClient) (options : Options)
  (rm : ResponseModel) (retry : option Run) (response : ChatCompletion)
  (m : ResponseMessage) : Run :=
  fun st =>
    match msg_content m with
    | None | Some "" =>
        retryOrThrow retry "No content in response" st
    | Some extractedData =>
        (* the try block: what it throws, or what it returns *)
        let tried : Throws (Outcome * State) :=
          match JSON_parse (cleanContent extractedData) with
          | inl error => inl error
          | inr parsedData =>
              match validateZodSchema (schema rm) parsedData with
              | inl error => inl error
              | inr false =>
                  match retry with
                  | Some again => inr (again st)
                  | None => inl "Response does not match the required schema"
                  end
              | inr true =>
                  inr (Returned (Parsed parsedData),
                       store self (cacheOptions self options (messages st))
                         (Parsed parsedData) (requestId options) st)
              end
          end in
        match tried with
        | inr result => result
        | inl error =>
            (* the catch block *)
            retryOrThrow retry ("Failed to parse response: " ++ error)
              (logger (parseFailureLog error extractedData) st)
        end
    end.

(** Lines 177-385: what a run does once the cache gave nothing. *)
Definition request (self : OpenRouterClient) (options : Options)
  (retry : option Run) : Run :=
  fun st =>
    let (responseFormat, st) := applyResponseModel self options st in
    let st := logger (sendingLog self options (messages st)) st in
    let body := mkBody self options responseFormat (messages st) in
    match create self (calls st) body with
    | Rejected error => (Thrown error, sent body st)
    | Resolved response =>
        let st := logger (responseLog options response) (sent body st) in
        match response, firstMessage response with
        | Some r, Some m =>
            match response_model options with
            | Some rm => extract self options rm retry r m st
            | None =>
                (Returned (Raw r),
                 store self (cacheOptions self options (messages st))
                   (Raw r) (requestId options) st)
            end
        | _, _ =>
            retryOrThrow retry
              "Invalid or empty response from OpenRouter API" st
        end
    end.

(** One run of the body of [createChatCompletion]: lines 120-175, then
    [request]. *)
Definition attempt (self : OpenRouterClient) (options : Options)
  (retry : option Run) : Run :=
  fun st0 =>
    let st := logger (creatingLog self options (messages st0)) st0 in
    let cachedResponse : Throws (option Value) :=
      if enableCaching self then
        match cache st with
        | Some c =>
            inr (cache_get (cacheOptions self options (messages st))
                   (requestId options) c)
        | None => inl "Cannot read properties of undefined (reading 'get')"
        end
      else inr None in
    match cachedResponse with
    | inl error => (Thrown error, st)
    | inr (Some v) =>
        if truthy v then (Returned v, logger (cacheHitLog options v) st)
        else request self options retry st
    | inr None => request self options retry st
    end.

(** [createChatCompletion({options, retries, logger})].  The budget is a
    natural number: the test [retries > 0] and the argument [retries - 1]
    of the recursive call are the match on the successor.  [logger] is the
    [logs] of the state, and a rejected promise is the outcome [Thrown]. *)
Fixpoint createChatCompletion (self : OpenRouterClient) (options : Options)
  (retries : nat) : Run :=
  attempt self options
    (match retries with
     | 0 => None
     | S retries' => Some (createChatCompletion self options retries')
     end).

(** ** What the statements below speak of *)

(** What lines 177-192 decide, apart from the state: the messages pushed
    and the response format. *)
Definition pushed (self : OpenRouterClient) (options : Options)
  : list ChatMessage :=
  match response_model options with
  | Some rm => if isGemini self then [schemaInstruction rm] else []
  | None => []
  end.

Definition responseFormatOf (self : OpenRouterClient) (options : Options)
  : option ResponseFormat :=
  match response_model options with
  | Some rm =>
      if isGemini self then None
      else Some (zodResponseFormat (schema rm) (name rm))
  | None => None
  end.

Definition grow (l : list ChatMessage) (st : State) : State :=
  {| messages := messages st ++ l; cache := cache st; calls := calls st;
     logs := logs st |}.

(** The body of the [k]-th call of a run that started with [msgs]. *)
Definition bodyOf (self : OpenRouterClient) (options : Options)
  (msgs : list ChatMessage) (k : nat) : Body :=
  mkBody self options (responseFormatOf self options)
    (msgs ++ concat (repeat (pushed self options) k)).

(** The kinds of response after which the client tries again. *)
Inductive Failure : Type :=
| EmptyResponse
| MissingContent
| ParseFailure (error : string)
| SchemaMismatch.

Definition failureOf (options : Options) (r : ApiResult) : option Failure :=
  match r with
  | Rejected _ => None
  | Resolved response =>
      match firstMessage response with
      | None => Some EmptyResponse
      | Some m =>
          match response_model options with
          | None => None
          | Some rm =>
              match msg_content m with
              | None | Some "" => Some MissingContent
              | Some extractedData =>
                  match JSON_parse (cleanContent extractedData) with
                  | inl error => Some (ParseFailure error)
                  | inr parsedData =>
                      match Schema_parse (schema rm) parsedData with
                      | inl _ => Some SchemaMismatch
                      | inr _ => None
                      end
                  end
              end
          end
      end
  end.

(** What the client throws when the failure comes with no retry left. *)
Definition errorOf (f : Failure) : string :=
  match f with
  | EmptyResponse => "Invalid or empty response from OpenRouter API"
  | MissingContent => "No content in response"
  | ParseFailure error => "Failed to parse response: " ++ error
  | SchemaMismatch =>
      "Failed to parse response: Response does not match the required schema"
  end.

(** The lookup of lines 152-157, made with the messages [msgs], is not
    served: caching is off, or the cache is there and holds under the key
    of this request nothing, or a value that the test [if (cachedResponse)]
    refuses. *)
Definition missed (self : OpenRouterClient) (options : Options)
  (msgs : list ChatMessage) (c : option LLMCache) : Prop :=
  enableCaching self = false
  \/ exists c', c = Some c'
       /\ forall v,
            cache_get (cacheOptions self options msgs) (requestId options) c'
            = Some v ->
            truthy v = false.

(** None of the first [n] lookups of a run is served; the lookup of the
    attempt after [j] calls is made with the messages as [j] rounds of
    lines 177-192 have left them. *)
Definition unserved (self : OpenRouterClient) (options : Options)
  (st : State) (n : nat) : Prop :=
  forall j, j < n ->
    missed self options
      (messages st ++ concat (repeat (pushed self options) j)) (cache st).

(** Two option records agree on what the cache key takes from them. *)
Definition sameContent (o1 o2 : Options) : Prop :=
  temperature o1 = temperature o2
  /\ top_p o1 = top_p o2
  /\ frequency_penalty o1 = frequency_penalty o2
  /\ presence_penalty o1 = presence_penalty o2
  /\ image o1 = image o2
  /\ response_model o1 = response_model o2.

Definition isImage (c : ContentPart) : bool :=
  match c with
  | ImageContent _ => true
  | TextContent _ => false
  end.

(** The responses a run accepts, with what it returns for them: the
    response itself without a response_model, and with one the parsed data
    when the content is there, parses and matches the schema. *)
Definition successOf (options : Options) (r : ApiResult) : option Value :=
  match r with
  | Rejected _ => None
  | Resolved None => None
  | Resolved (Some c) =>
      match firstMessage (Some c) with
      | None => None
      | Some m =>
          match response_model options with
          | None => Some (Raw c)
          | Some rm =>
              match msg_content m with
              | None | Some "" => None
              | Some extractedData =>
                  match JSON_parse (cleanContent extractedData) with
                  | inl _ => None
                  | inr parsedData =>
                      match Schema_parse (schema rm) parsedData with
                      | inl _ => None
                      | inr _ => Some (Parsed parsedData)
                      end
                  end
              end
          end
      end
  end.

(** What [store] leaves in the place of the cache [c]. *)
Definition stored (self : OpenRouterClient) (options : Options)
  (msgs : list ChatMessage) (v : Value) (c : option LLMCache)
  : option LLMCache :=
  if enableCaching self
  then option_map (cache_set (cacheOptions self options msgs) v
                     (requestId options)) c
  else c.

(** The state with another cache in the place of [this.cache]. *)
Definition withCache (c : option LLMCache) (st : State) : State :=
  {| messages := messages st; cache := c; calls := calls st;
     logs := logs st |}.

(** What stands behind an error-level line of the log: the content of a
    response that [JSON.parse] refused, logged with the message of the
    parser; or the message of the schema check, thrown inside the try with
    no retry left, and then the run throws it again. *)
Definition explained (self : OpenRouterClient) (options : Options)
  (out : Outcome) (l : LogLine) : Prop :=
  exists error data,
    l = parseFailureLog error data
    /\ ((exists sentBefore body c m rm,
           create self sentBefore body = Resolved (Some c)
           /\ firstMessage (Some c) = Some m
           /\ response_model options = Some rm
           /\ msg_content m = Some data
           /\ JSON_parse (cleanContent data) = inl error)
        \/ (error = "Response does not match the required schema"
            /\ out = Thrown ("Failed to parse response: " ++ error))).

End Client.

(** ** The constructor

    [clientOptions] is an object of the openai package: its keys with their
    values.  [OpenAI] stands for [new OpenAI(config)], taken with the
    [chat.completions.create] of the client it builds. *)

Section Constructor.

Context {E : Externs}.

Variable OptionValue : Type.
(* a string as the value of an option *)
Variable str : string -> OptionValue.

Definition JsObject : Type := list (string * OptionValue).

(** [o[k]] *)
Fixpoint property (k : string) (o : JsObject) : option OptionValue :=
  match o with
  | [] => None
  | (k', v) :: o' => if String.eqb k k' then Some v else property k o'
  end.

(** [{...o, k: v}], where [o] may be undefined *)
Definition spreadWith (o : option JsObject) (k : string) (v : OptionValue)
  : JsObject :=
  (k, v)
    :: filter (fun e => negb (String.eqb k (fst e)))
         (match o with Some o' => o' | None => [] end).

Variable OpenAI : JsObject -> list Body -> Body -> ApiResult.

(** The argument of the constructor; its [logger] is not read. *)
Record ConstructorArgs : Type := {
  arg_enableCaching : option bool;
  arg_cache : option LLMCache;
  arg_modelName : string;
  arg_clientOptions : option JsObject
}.

(** The fields of the object built, those of [OpenRouterClient] first. *)
Record Instance : Type := {
  this : OpenRouterClient;
  this_type : string;
  this_cache : option LLMCache;
  this_clientOptions : option JsObject;
  this_hasVision : bool
}.

Definition openRouterURL : string := "https://openrouter.ai/api/v1".

(** The object handed to [new OpenAI]. *)
Definition openAIConfig (args : ConstructorArgs) : JsObject :=
  spreadWith (arg_clientOptions args) "baseURL" (str openRouterURL).

Definition constructor (args : ConstructorArgs) : Instance :=
  {| this :=
       {| modelName := arg_modelName args;
          enableCaching :=
            match arg_enableCaching args with
            | Some b => b
            | None => false
            end;
          create := OpenAI (openAIConfig args) |};
     this_type := "openrouter";
     this_cache := arg_cache args;
     this_clientOptions := arg_clientOptions args;
     this_hasVision := false |}.

(** The state a first call of the instance starts in. *)
Definition firstState (i : Instance) (msgs : list ChatMessage) : State :=
  {| messages := msgs; cache := this_cache i; calls := []; logs := [] |}.

End Constructor.

Arguments property {OptionValue} k o.
Arguments spreadWith {OptionValue} o k v.
Arguments arg_enableCaching {E OptionValue} c.
Arguments arg_cache {E OptionValue} c.
Arguments arg_modelName {E OptionValue} c.
Arguments arg_clientOptions {E OptionValue} c.
Arguments this {E OptionValue} i.
Arguments this_type {E OptionValue} i.
Arguments this_cache {E OptionValue} i.
Arguments this_clientOptions {E OptionValue} i.
Arguments this_hasVision {E OptionValue} i.
Arguments openAIConfig {E OptionValue} str args.
Arguments constructor {E OptionValue} str OpenAI args.
Arguments firstState {E OptionValue} i msgs.

(** The texts of the examples of the cleaning step. *)
Definition fencedJson : string :=
  "```json" ++ String LF ("{" ++ String DQUOTE ("a" ++ String DQUOTE
    (":1}" ++ String LF "```"))).

Definition bareJson : string :=
  "{" ++ String DQUOTE ("a" ++ String DQUOTE ":1}").

Definition spacedTag : string :=
  "``` json" ++ String LF ("{}" ++ String LF "```").

(** ** A small environment for the examples

    Scalars stand for the parsed values and two schemas for the zod
    objects.  [tiny_JSON_parse] agrees with JSON.parse on the texts it
    accepts (the literals null, true and false and the non-negative integer
    literals); the examples give it such a text or one that is not JSON. *)

Inductive TinyJson : Type :=
| JNull
| JBool (b : bool)
| JNum (n : nat).

(** [z.number()] and [z.boolean()] *)
Inductive TinySchema : Type := ZNumber | ZBoolean.

Definition digit (c : ascii) : option nat :=
  let n := nat_of_ascii c in
  if (48 <=? n)%nat && (n <=? 57)%nat then Some (n - 48) else None.

Fixpoint digits (acc : nat) (s : list ascii) : option nat :=
  match s with
  | [] => Some acc
  | c :: t =>
      match digit c with
      | Some d => digits (10 * acc + d) t
      | None => None
      end
  end.

Definition tiny_JSON_parse (s : string) : string + TinyJson :=
  if String.eqb s "null" then inr JNull
  else if String.eqb s "true" then inr (JBool true)
  else if String.eqb s "false" then inr (JBool false)
  else
    match chars s with
    | [] => inl "Unexpected end of JSON input"
    | [c] =>
        match digit c with
        | Some d => inr (JNum d)
        | None => inl "Unexpected token"
        end
    | c :: t =>
        match digit c with
        | Some 0 | None => inl "Unexpected token"
        | Some d =>
            match digits d t with
            | Some n => inr (JNum n)
            | None => inl "Unexpected token"
            end
        end
    end.

Definition tiny_Schema_parse (s : TinySchema) (data : TinyJson)
  : string + TinyJson :=
  match s, data with
  | ZNumber, JNum _ => inr data
  | ZBoolean, JBool _ => inr data
  | ZNumber, _ => inl "Expected number"
  | ZBoolean, _ => inl "Expected boolean"
  end.

Definition tiny_ToBoolean (data : TinyJson) : bool :=
  match data with
  | JNull => false
  | JBool b => b
  | JNum n => negb (Nat.eqb n 0)
  end.

Definition TinySchema_eq_dec (a b : TinySchema) : {a = b} + {a <> b}.
Proof.
  decide equality.
Defined.

Definition tiny : Externs :=
  {| Schema := TinySchema;
     Json := TinyJson;
     JsNumber := nat;
     Image := string;
     ToolParameters := unit;
     ResponseFormat := (string * TinySchema)%type;
     Schema_eq_dec := TinySchema_eq_dec;
     JsNumber_eq_dec := Nat.eq_dec;
     Image_eq_dec := string_dec;
     JSON_parse := tiny_JSON_parse;
     JSON_stringify :=
       fun s => match s with ZNumber => "{number}" | ZBoolean => "{boolean}" end;
     Schema_parse := tiny_Schema_parse;
     zodResponseFormat := fun s n => (n, s);
     ToBoolean := tiny_ToBoolean |}.

(** A response whose first choice carries [content]. *)
Definition answer (content : option string) : ApiResult :=
  Resolved (Some {| id := "gen-1";
                    choices := Some [ {| message :=
                      Some {| msg_content := content |} |} ] |}).

(** A response without choices. *)
Definition emptyAnswer : ApiResult :=
  Resolved (Some {| id := "gen-0"; choices := Some [] |}).

Definition plainOptions (rm : option (@ResponseModel tiny)) (rid : string)
  : @Options tiny :=
  {| temperature := None; top_p := None; frequency_penalty := None;
     presence_penalty := None; image := None; response_model := rm;
     tools := None; requestId := rid |}.

Definition tinyClient (model : string) (caching : bool)
  (reply : ApiResult) : @OpenRouterClient tiny :=
  {| modelName := model; enableCaching := caching;
     create := fun _ _ => reply |}.

Definition ask : list ChatMessage :=
  [ {| role := user; content := Plain "how many?" |} ].

Definition start (c : option (@LLMCache tiny)) : @State tiny :=
  {| messages := ask; cache := c; calls := []; logs := [] |}.

Definition gemini : string := "google/gemini-2.0-pro-exp-02-05:free".

Definition gpt : string := "openai/gpt-4o".

Definition wanted (n : string) (s : TinySchema) : @ResponseModel tiny :=
  @Build_ResponseModel tiny n s.

(** A request for a number, and one for a boolean under the same schema
    name. *)
Definition countOptions (rid : string) : @Options tiny :=
  plainOptions (Some (wanted "count" ZNumber)) rid.

Definition flagOptions (rid : string) : @Options tiny :=
  plainOptions (Some (wanted "count" ZBoolean)) rid.

(** The cache after [data] was stored for the number request [r0]. *)
Definition cached (model : string) (data : TinyJson) : @LLMCache tiny :=
  [ (cacheOptions (tinyClient model true emptyAnswer) (countOptions "r0") ask,
     (@Parsed tiny data, "r0")) ].

(** A provider that answers its calls from a list, in turn, and with an
    empty response after the last. *)
Definition scriptedClient (model : string) (caching : bool)
  (replies : list ApiResult) : @OpenRouterClient tiny :=
  {| modelName := model; enableCaching := caching;
     create := fun sentBefore _ => nth (length sentBefore) replies emptyAnswer |}.

(** A picture with its caption, as the content of a message. *)
Definition picture : MessageContent :=
  Parts [TextContent "what is this?"; ImageContent "data:image/png;base64,AAAA"].

(** A package that reaches the provider at the address of OpenRouter
    only, and the argument of a constructor call that names another
    address, gives a cache and leaves [enableCaching] out. *)
Definition tinyOpenAI (config : JsObject string) (sentBefore : list (@Body tiny))
  (body : @Body tiny) : ApiResult :=
  match property "baseURL" config with
  | Some url =>
      if String.eqb url openRouterURL then answer (Some "7")
      else Rejected "getaddrinfo ENOTFOUND"
  | None => Rejected "no base URL"
  end.

Definition givenArgs : @ConstructorArgs tiny string :=
  @Build_ConstructorArgs tiny string None (Some (cached gpt (JNum 1))) gpt
    (Some [("apiKey", "sk-or-v1"); ("baseURL", "http://localhost:1234")]).

(** The clients and states of further examples. *)
Definition sevenClient (caching : bool) : @OpenRouterClient tiny :=
  tinyClient gpt caching (answer (Some "7")).

Definition geminiSeven : @OpenRouterClient tiny :=
  tinyClient gemini true (answer (Some "7")).

Definition flaky (caching : bool) : @OpenRouterClient tiny :=
  scriptedClient gemini caching
    [emptyAnswer; answer (Some "x"); answer (Some "7")].

Definition pictures : @State tiny :=
  {| messages := [ {| role := user; content := picture |};
                   {| role := system; content := picture |} ];
     cache := None; calls := []; logs := [] |}.

(** * Properties *)

(** ** Strings and the regular expressions *)

Lemma chars_text (l : list ascii) : chars (text l) = l.
Proof.
  apply list_ascii_of_string_of_list_ascii.
Qed.

Lemma text_chars (s : string) : text (chars s) = s.
Proof.
  apply string_of_list_ascii_of_string.
Qed.

Lemma lit_app (cs r : list ascii) : lit cs (cs ++ r) = Some r.
Proof.
  induction cs as [|c cs IH]; simpl; [reflexivity|].
  now rewrite Ascii.eqb_refl.
Qed.

Lemma lit_Some (cs s r : list ascii) : lit cs s = Some r -> s = cs ++ r.
Proof.
  revert s; induction cs as [|c cs IH]; simpl; intros s H.
  - now inversion H.
  - destruct s as [|d s]; [discriminate|].
    destruct (Ascii.eqb c d) eqn:Hcd; [|discriminate].
    apply Ascii.eqb_eq in Hcd; subst d.
    now rewrite (IH _ H).
Qed.

(** Every successful run consumed a prefix of its input and then called
    its continuation there. *)
Lemma star_sound p (k : Cont) res :
  forall s i, star p i s k = Some res ->
    exists pre s', s = pre ++ s' /\ k (i + length pre) s' = Some res.
Proof.
  induction s as [|c t IH]; simpl; intros i H.
  - exists [], []; simpl; now rewrite Nat.add_0_r.
  - assert (Hk : k i (c :: t) = Some res ->
              exists pre s', c :: t = pre ++ s' /\ k (i + length pre) s' = Some res).
    { intros Hk; exists [], (c :: t); simpl; now rewrite Nat.add_0_r. }
    destruct (p c); [|auto].
    destruct (star p (S i) t k) eqn:Hs; [|auto].
    inversion H; subst; clear H.
    destruct (IH _ Hs) as (pre & s' & -> & Hres).
    exists (c :: pre), s'; simpl; split; [reflexivity|].
    now rewrite <- Nat.add_succ_comm.
Qed.

Lemma run_sound (r : regex) :
  forall (k : Cont) res s i, run r i s k = Some res ->
    exists pre s', s = pre ++ s' /\ k (i + length pre) s' = Some res.
Proof.
  induction r as [| |cs|p|r IH|r1 IH1 r2 IH2]; simpl; intros k res s i H.
  - destruct (Nat.eqb i 0); [|discriminate].
    exists [], s; simpl; now rewrite Nat.add_0_r.
  - destruct s; [|discriminate].
    exists [], []; simpl; now rewrite Nat.add_0_r.
  - destruct (lit cs s) as [s'|] eqn:Hl; [|discriminate].
    exists cs, s'; split; [now apply lit_Some|assumption].
  - now apply (star_sound p).
  - destruct (run r i s k) eqn:Hr.
    + inversion H; subst; now apply IH.
    + exists [], s; simpl; now rewrite Nat.add_0_r.
  - destruct (IH1 _ _ _ _ H) as (pre1 & s1 & -> & H1).
    destruct (IH2 _ _ _ _ H1) as (pre2 & s2 & -> & H2).
    exists (pre1 ++ pre2), s2; split; [now rewrite app_assoc|].
    now rewrite length_app, Nat.add_assoc.
Qed.

Lemma exec_sound (r : regex) (i j : nat) (s s' : list ascii) :
  exec r i s = Some (j, s') -> exists pre, s = pre ++ s' /\ j = i + length pre.
Proof.
  intros H; apply run_sound in H.
  destruct H as (pre & s'' & -> & H); inversion H; subst.
  now exists pre.
Qed.

Lemma skipn_app_length {A : Type} (pre s : list A) :
  skipn (length pre) (pre ++ s) = s.
Proof.
  induction pre; simpl; auto.
Qed.

Lemma is_ws_backtick : is_ws "`" = false.
Proof.
  reflexivity.
Qed.

Lemma lit_fence_ws (c : ascii) (t : list ascii) :
  is_ws c = true -> lit fence (c :: t) = None.
Proof.
  intros Hc; unfold fence, chars; cbn [list_ascii_of_string lit].
  destruct (Ascii.eqb "`" c) eqn:Hb; [|reflexivity].
  apply Ascii.eqb_eq in Hb; subst c.
  now rewrite is_ws_backtick in Hc.
Qed.

(** A greedy [\s*] followed by the fence stops where the white space
    ends. *)
Lemma star_ws_then_fence (k : Cont) :
  (forall i c t, is_ws c = true -> k i (c :: t) = None) ->
  forall s i, star is_ws i s k
              = k (i + (length s - length (trimStart s))) (trimStart s).
Proof.
  intros Hk; induction s as [|c t IH]; intros i; cbn [star trimStart].
  - simpl. now rewrite Nat.add_0_r.
  - destruct (is_ws c) eqn:Hc; cbn [length].
    + rewrite IH, (Hk i c t Hc).
      assert (Hle : length (trimStart t) <= length t).
      { clear; induction t as [|d t IH]; simpl; [lia|].
        destruct (is_ws d); simpl; lia. }
      replace (i + (S (length t) - length (trimStart t)))
        with (S i + (length t - length (trimStart t))) by lia.
      now destruct (k _ _).
    + now rewrite Nat.sub_diag, Nat.add_0_r.
Qed.

(** After index 0 the anchored opening pattern matches nowhere. *)
Lemma exec_opening_later (i : nat) (s : list ascii) :
  i <> 0 -> exec openingFence i s = None.
Proof.
  intros Hi; unfold exec, openingFence; simpl.
  now destruct i.
Qed.

Lemma replaceFrom_opening_later :
  forall (t : list ascii) (i skip : nat),
    i <> 0 -> replaceFrom openingFence [] i skip t = skipn skip t.
Proof.
  induction t as [|c t IH]; intros i skip Hi; simpl.
  - rewrite exec_opening_later by assumption. now destruct skip.
  - destruct skip as [|skip].
    + rewrite exec_opening_later by assumption.
      now rewrite IH.
    + now rewrite IH.
Qed.

Lemma replace_opening (s : list ascii) :
  stripOpening s
  = match exec openingFence 0 s with
    | Some (_, s') => s'
    | None => s
    end.
Proof.
  unfold stripOpening, replace.
  destruct s as [|c t].
  - simpl replaceFrom.
    destruct (exec openingFence 0 []) as [[j s']|] eqn:He; [|reflexivity].
    apply exec_sound in He. destruct He as (pre & Hs & _).
    symmetry in Hs. apply app_eq_nil in Hs. now destruct Hs.
  - simpl replaceFrom.
    destruct (exec openingFence 0 (c :: t)) as [[j s']|] eqn:He.
    + apply exec_sound in He. destruct He as (pre & Hs & ->).
      simpl. destruct pre as [|d pre]; simpl in *.
      * rewrite replaceFrom_opening_later by lia. now subst.
      * inversion Hs; subst.
        rewrite replaceFrom_opening_later by lia.
        rewrite Nat.sub_0_r. apply skipn_app_length.
    + now rewrite replaceFrom_opening_later by lia.
Qed.

Lemma exec_opening (s : list ascii) :
  option_map snd (exec openingFence 0 s)
  = option_map afterOpening (lit fence (trimStart s)).
Proof.
  unfold exec, openingFence.
  cbn [run Nat.eqb].
  rewrite star_ws_then_fence.
  - destruct (lit fence (trimStart s)) as [r|]; [|reflexivity].
    cbn [option_map]. unfold afterOpening, dropPrefix.
    destruct (lit (chars "json") r) as [r1|]; cbn [run];
      [destruct (lit [LF] r1) | destruct (lit [LF] r)]; reflexivity.
  - intros i c t Hc. now rewrite (lit_fence_ws c t Hc).
Qed.

(** The first replacement in closed form. *)
Lemma stripOpening_eq (s : list ascii) :
  stripOpening s
  = match lit fence (trimStart s) with
    | Some r => afterOpening r
    | None => s
    end.
Proof.
  rewrite replace_opening.
  pose proof (exec_opening s) as H.
  destruct (exec openingFence 0 s) as [[j s']|];
    destruct (lit fence (trimStart s)); simpl in H; congruence.
Qed.

(** *** The closing fence *)

Lemma star_ws_eol (w : list ascii) :
  forall i, star is_ws i w
              (fun i' r' => run Eol i' r' (fun j r => Some (j, r)))
            = if forallb is_ws w then Some (i + length w, []) else None.
Proof.
  induction w as [|c t IH]; intros i; cbn [star forallb length run].
  - now rewrite Nat.add_0_r.
  - destruct (is_ws c); cbn [andb]; [|reflexivity].
    rewrite IH. destruct (forallb is_ws t); [|reflexivity].
    now rewrite Nat.add_succ_comm.
Qed.

Lemma closing_tail (i : nat) (r : list ascii) :
  run (Cat (Lit fence) (Cat (Star is_ws) Eol)) i r (fun j r' => Some (j, r'))
  = if fenceToEnd r then Some (i + length r, []) else None.
Proof.
  unfold fenceToEnd. cbn [run].
  destruct (lit fence r) as [w|] eqn:Hl; [|reflexivity].
  rewrite star_ws_eol. apply lit_Some in Hl; subst r.
  destruct (forallb is_ws w); [|reflexivity].
  now rewrite length_app, Nat.add_assoc.
Qed.

Lemma exec_closing (i : nat) (s : list ascii) :
  exec closingFence i s
  = if closesHere s then Some (i + length s, []) else None.
Proof.
  unfold exec, closingFence, closesHere.
  set (R := Cat (Lit fence) (Cat (Star is_ws) Eol)).
  assert (H : forall k, run (Cat (Opt (Lit [LF])) R) i s k
              = match match lit [LF] s with
                      | Some r' => run R (i + 1) r' k
                      | None => None
                      end with
                | Some x => Some x
                | None => run R i s k
                end) by reflexivity.
  rewrite H; clear H; subst R.
  destruct (lit [LF] s) as [r|] eqn:Hl; rewrite !closing_tail.
  - apply lit_Some in Hl; subst s.
    destruct (fenceToEnd r); cbn [orb]; [|reflexivity].
    f_equal. f_equal. cbn [length app]. lia.
  - reflexivity.
Qed.

Lemma replaceFrom_closing_skip (t : list ascii) :
  forall i, replaceFrom closingFence [] i (length t) t = [].
Proof.
  induction t as [|c t IH]; intros i; cbn [replaceFrom length].
  - now destruct (exec closingFence i []).
  - apply IH.
Qed.

(** The second replacement drops the first suffix the pattern matches. *)
Lemma replaceFrom_closing (s : list ascii) (i : nat) :
  replaceFrom closingFence [] i 0 s
  = if closesHere s then []
    else match s with
         | [] => []
         | c :: t => c :: replaceFrom closingFence [] (S i) 0 t
         end.
Proof.
  destruct s as [|c t]; cbn [replaceFrom]; rewrite exec_closing.
  - now destruct (closesHere []).
  - destruct (closesHere (c :: t)); [|reflexivity].
    cbn [length app].
    replace (Nat.eqb (i + S (length t)) i) with false
      by (symmetry; apply Nat.eqb_neq; lia).
    replace (i + S (length t) - i - 1) with (length t) by lia.
    apply replaceFrom_closing_skip.
Qed.

Lemma trimStart_split (s : list ascii) :
  exists a, s = a ++ trimStart s /\ forallb is_ws a = true.
Proof.
  induction s as [|c t (a & Ht & Ha)]; cbn [trimStart].
  - now exists [].
  - destruct (is_ws c) eqn:Hc.
    + exists (c :: a); cbn [forallb app]. rewrite Hc, Ha, <- Ht. now split.
    + now exists [].
Qed.

Lemma trimStart_ws_app (a b : list ascii) :
  forallb is_ws a = true -> trimStart (a ++ b) = trimStart b.
Proof.
  induction a as [|c a IH]; cbn [forallb app trimStart]; [reflexivity|].
  intros H; apply andb_true_iff in H; destruct H as [Hc Ha].
  rewrite Hc. now apply IH.
Qed.

Lemma trimStart_nil (s : list ascii) :
  trimStart s = [] -> forallb is_ws s = true.
Proof.
  induction s as [|c t IH]; cbn [trimStart forallb]; [reflexivity|].
  destruct (is_ws c); [now intros H; rewrite IH | discriminate].
Qed.

Lemma trimStart_app (s b : list ascii) :
  trimStart s <> [] -> trimStart (s ++ b) = trimStart s ++ b.
Proof.
  induction s as [|c t IH]; cbn [trimStart app]; [congruence|].
  destruct (is_ws c); [exact IH | reflexivity].
Qed.

Lemma trimStart_fence (x : list ascii) : trimStart (fence ++ x) = fence ++ x.
Proof.
  reflexivity.
Qed.

Lemma forallb_rev {A : Type} (f : A -> bool) (l : list A) :
  forallb f (rev l) = forallb f l.
Proof.
  induction l as [|a l IH]; cbn [rev forallb]; [reflexivity|].
  rewrite forallb_app, IH. cbn [forallb]. rewrite andb_true_r. apply andb_comm.
Qed.

Lemma lit_more (cs x q b : list ascii) :
  lit cs x = Some q -> lit cs (x ++ b) = Some (q ++ b).
Proof.
  intros H; apply lit_Some in H; subst x.
  rewrite <- app_assoc. apply lit_app.
Qed.

Lemma lit_last (cs : list ascii) :
  forall x c q, lit cs (x ++ [c]) = Some q -> lit cs x = None -> q = [].
Proof.
  induction cs as [|k cs IH]; intros x c q; cbn [lit]; [discriminate|].
  destruct x as [|d x]; cbn [app].
  - destruct (Ascii.eqb k c); [|discriminate].
    destruct cs; cbn [lit]; [now intros H; inversion H | discriminate].
  - destruct (Ascii.eqb k d); [apply IH | discriminate].
Qed.

Lemma rev_fence : rev fence = fence.
Proof.
  reflexivity.
Qed.

Lemma lit_LF_fence (x : list ascii) : lit [LF] (fence ++ x) = None.
Proof.
  reflexivity.
Qed.

(** Where the closing pattern matches, read from the end of the text. *)
Lemma closesHere_iff (s : list ascii) :
  closesHere s = true
  <-> lit fence (trimStart (rev s)) = Some []
      \/ lit fence (trimStart (rev s)) = Some [LF].
Proof.
  unfold closesHere; split.
  - assert (Hf : forall r, fenceToEnd r = true ->
                   exists w, r = fence ++ w /\ forallb is_ws (rev w) = true).
    { unfold fenceToEnd; intros r H.
      destruct (lit fence r) as [w|] eqn:Hl; [|discriminate].
      exists w; split; [now apply lit_Some | now rewrite forallb_rev]. }
    destruct (lit [LF] s) as [r|] eqn:Hl.
    + apply lit_Some in Hl; subst s. intros H.
      assert (Hr : fenceToEnd r = true).
      { apply orb_true_iff in H; destruct H as [H|H]; [assumption|].
        unfold fenceToEnd in H. cbn [app] in H.
        now rewrite lit_fence_ws in H. }
      destruct (Hf _ Hr) as (w & -> & Hw). right.
      cbn [app rev]. rewrite rev_app_distr, rev_fence, <- app_assoc.
      rewrite (trimStart_ws_app _ _ Hw), trimStart_fence.
      apply lit_app.
    + intros H. destruct (Hf _ H) as (w & -> & Hw). left.
      rewrite rev_app_distr, rev_fence, (trimStart_ws_app _ _ Hw).
      rewrite <- (app_nil_r fence) at 2. rewrite trimStart_fence. apply lit_app.
  - intros H.
    assert (Hs : exists q a, (q = [] \/ q = [LF])
                   /\ s = rev q ++ fence ++ a /\ forallb is_ws a = true).
    { destruct (trimStart_split (rev s)) as (a & Hs & Ha).
      assert (Hq : exists q, (q = [] \/ q = [LF])
                     /\ trimStart (rev s) = fence ++ q).
      { destruct H as [H|H]; apply lit_Some in H; eauto. }
      destruct Hq as (q & Hq & Ht). exists q, (rev a); split; [assumption|].
      rewrite forallb_rev; split; [|assumption].
      rewrite <- (rev_involutive s), Hs, Ht.
      now rewrite !rev_app_distr, rev_fence, <- app_assoc. }
    destruct Hs as (q & a & [->| ->] & -> & Ha); cbn [rev app].
    + rewrite lit_LF_fence. unfold fenceToEnd. now rewrite lit_app.
    + change (LF :: fence ++ a) with ([LF] ++ fence ++ a) at 1.
      rewrite lit_app. unfold fenceToEnd at 1. now rewrite lit_app, Ha.
Qed.

Lemma replaceFrom_closing_eq (s : list ascii) :
  forall i, replaceFrom closingFence [] i 0 s
            = match lit fence (trimStart (rev s)) with
              | Some q => rev (dropPrefix [LF] q)
              | None => s
              end.
Proof.
  induction s as [|c t IH]; intros i; rewrite replaceFrom_closing.
  - reflexivity.
  - destruct (closesHere (c :: t)) eqn:Hc.
    + apply closesHere_iff in Hc. now destruct Hc as [-> | ->].
    + assert (Hn : forall q, lit fence (trimStart (rev (c :: t))) = Some q ->
                     q <> [] /\ q <> [LF]).
      { intros q Hq; split; intros ->;
          (assert (closesHere (c :: t) = true) by (apply closesHere_iff; auto));
          congruence. }
      rewrite IH. cbn [rev] in *.
      destruct (trimStart (rev t)) as [|d x] eqn:Ht.
      * rewrite (trimStart_ws_app _ _ (trimStart_nil _ Ht)).
        cbn [trimStart]. unfold fence, chars.
        destruct (is_ws c); cbn [list_ascii_of_string lit]; [reflexivity|].
        now destruct (Ascii.eqb "`" c).
      * rewrite trimStart_app in * by congruence. rewrite Ht in *.
        destruct (lit fence (d :: x)) as [q|] eqn:Hl.
        -- rewrite (lit_more _ _ _ [c] Hl) in *.
           destruct (Hn _ eq_refl) as [_ Hq].
           unfold dropPrefix. destruct q as [|e q]; cbn [app lit] in *.
           ++ destruct (Ascii.eqb LF c) eqn:He; [|reflexivity].
              apply Ascii.eqb_eq in He; subst c. congruence.
           ++ destruct (Ascii.eqb LF e); cbn [rev];
                now rewrite ?rev_app_distr.
        -- destruct (lit fence ((d :: x) ++ [c])) as [q|] eqn:Hl'; [|reflexivity].
           pose proof (lit_last _ _ _ _ Hl' Hl); subst q.
           now destruct (Hn _ eq_refl).
Qed.

(** The second replacement in closed form. *)
Lemma stripClosing_eq (s : list ascii) :
  stripClosing s
  = match lit fence (trimStart (rev s)) with
    | Some q => rev (dropPrefix [LF] q)
    | None => s
    end.
Proof.
  apply replaceFrom_closing_eq.
Qed.

Lemma hasFence_app (a b : list ascii) : hasFence (a ++ fence ++ b) = true.
Proof.
  induction a as [|c a IH]; [reflexivity|].
  cbn [app hasFence]. rewrite IH. now destruct (lit fence _).
Qed.

Lemma fenceFree_opening (s : list ascii) :
  fenceFree s -> lit fence (trimStart s) = None.
Proof.
  unfold fenceFree; intros H.
  destruct (lit fence (trimStart s)) as [r|] eqn:Hl; [|reflexivity].
  apply lit_Some in Hl. destruct (trimStart_split s) as (a & Hs & _).
  rewrite Hs, Hl, hasFence_app in H. discriminate.
Qed.

Lemma fenceFree_closing (s : list ascii) :
  fenceFree s -> lit fence (trimStart (rev s)) = None.
Proof.
  unfold fenceFree; intros H.
  destruct (lit fence (trimStart (rev s))) as [q|] eqn:Hl; [|reflexivity].
  apply lit_Some in Hl. destruct (trimStart_split (rev s)) as (a & Hs & _).
  rewrite <- (rev_involutive s), Hs, Hl in H.
  rewrite !rev_app_distr, rev_fence, <- app_assoc, hasFence_app in H.
  discriminate.
Qed.

Lemma text_inj (a b : list ascii) : text a = text b -> a = b.
Proof.
  intros H. now rewrite <- (chars_text a), H, chars_text.
Qed.

(** C5 (as amended): the cleaning step removes an opening marker made of
    optional white space, the three backticks, an optional json and an
    optional line feed, found at the start of the text only; then a closing
    marker made of an optional line feed, the three backticks and white
    space up to the end of the text; then it trims.  A text that holds no
    fence is only trimmed, so cleaning it changes nothing exactly when it
    has no white space at either end; and the fenced text of the
    specification's example is cleaned to the JSON text inside it. *)
Theorem cleanContent_strips_fences :
  (forall x, cleanContent x
             = text (trim (stripClosing (stripOpening (chars x)))))
  /\ (forall ws r, forallb is_ws ws = true ->
        stripOpening (ws ++ fence ++ r) = afterOpening r)
  /\ (forall s, (forall ws r, forallb is_ws ws = true -> s <> ws ++ fence ++ r) ->
        stripOpening s = s)
  /\ (forall p ws, forallb is_ws ws = true ->
        stripClosing (p ++ fence ++ ws) = dropSuffix [LF] p)
  /\ (forall s, (forall p ws, forallb is_ws ws = true -> s <> p ++ fence ++ ws) ->
        stripClosing s = s)
  /\ (forall x, fenceFree (chars x) ->
        cleanContent x = text (trim (chars x))
        /\ (cleanContent x = x <-> trim (chars x) = chars x))
  /\ cleanContent fencedJson = bareJson.
Proof.
  repeat split.
  - intros ws r Hws. rewrite stripOpening_eq.
    now rewrite (trimStart_ws_app _ _ Hws), trimStart_fence, lit_app.
  - intros s Hs. rewrite stripOpening_eq.
    destruct (lit fence (trimStart s)) as [r|] eqn:Hl; [|reflexivity].
    apply lit_Some in Hl. destruct (trimStart_split s) as (a & Ha & Hws).
    rewrite Hl in Ha. now destruct (Hs _ _ Hws Ha).
  - intros p ws Hws. rewrite stripClosing_eq.
    rewrite !rev_app_distr, rev_fence, <- app_assoc.
    rewrite trimStart_ws_app by now rewrite forallb_rev.
    now rewrite trimStart_fence, lit_app.
  - intros s Hs. rewrite stripClosing_eq.
    destruct (lit fence (trimStart (rev s))) as [q|] eqn:Hl; [|reflexivity].
    apply lit_Some in Hl. destruct (trimStart_split (rev s)) as (a & Ha & Hws).
    rewrite Hl in Ha. exfalso. apply (Hs (rev q) (rev a)).
    + now rewrite forallb_rev.
    + rewrite <- (rev_involutive s), Ha.
      now rewrite !rev_app_distr, rev_fence, <- app_assoc.
  - unfold cleanContent. rewrite stripOpening_eq, fenceFree_opening by assumption.
    now rewrite stripClosing_eq, fenceFree_closing.
  - unfold cleanContent. rewrite stripOpening_eq, fenceFree_opening by assumption.
    rewrite stripClosing_eq, fenceFree_closing by assumption.
    intros Hx. apply text_inj. now rewrite text_chars.
  - unfold cleanContent. rewrite stripOpening_eq, fenceFree_opening by assumption.
    rewrite stripClosing_eq, fenceFree_closing by assumption.
    intros ->. apply text_chars.
Qed.

(** C5, as stated, fails: with white space between the backticks and the
    tag the code leaves the tag in the text, where the specification's
    pattern removes it; and a text without a fence but with white space
    around it is changed. *)
Lemma cleanContent_counterexample :
  cleanContent spacedTag = ("json" ++ String LF "{}")%string
  /\ spec_cleanContent spacedTag = "{}"
  /\ hasFence (chars " 1") = false
  /\ cleanContent " 1" = "1".
Proof.
  repeat split.
Qed.

Lemma cleanContent_witness :
  stripOpening (chars " " ++ fence ++ chars "json{}") = chars "{}"
  /\ stripClosing (chars "{}" ++ fence ++ [LF]) = chars "{}"
  /\ cleanContent "{}" = "{}".
Proof.
  destruct cleanContent_strips_fences as (_ & Ho & _ & Hc & _ & Hf & _).
  split; [|split].
  - now rewrite Ho.
  - now rewrite Hc.
  - now apply (Hf "{}").
Defined.

(** ** The client *)

Section Properties.

Context {E : Externs}.

Variable self : OpenRouterClient.
Variable options : Options.

Lemma applyResponseModel_eq (st : State) :
  applyResponseModel self options st
  = (responseFormatOf self options, grow (pushed self options) st).
Proof.
  unfold applyResponseModel, responseFormatOf, pushed, grow, push.
  destruct st as [m c k l]; cbn.
  destruct (response_model options) as [rm|];
    [destruct (isGemini self)|]; now rewrite ?app_nil_r.
Qed.

Ltac crunch :=
  repeat match goal with
    | H : (_, _) = (_, _) |- _ => inversion H; subst; clear H
    | H : inr _ = inr _ |- _ => inversion H; subst; clear H
    | H : inl _ = inl _ |- _ => inversion H; subst; clear H
    | H : inl _ = inr _ |- _ => discriminate H
    | H : inr _ = inl _ |- _ => discriminate H
    | H : context [match ?x with _ => _ end] |- _ => destruct x eqn:?
    end.

Lemma request_cases (retry : option Run) (st : State) out st' :
  request self options retry st = (out, st') ->
  (calls st' = calls st ++ [bodyOf self options (messages st) 1]
   /\ messages st' = messages st ++ pushed self options)
  \/ (exists again st2, retry = Some again /\ again st2 = (out, st')
        /\ calls st2 = calls st ++ [bodyOf self options (messages st) 1]
        /\ messages st2 = messages st ++ pushed self options
        /\ cache st2 = cache st).
Proof.
  unfold request, bodyOf. rewrite applyResponseModel_eq.
  cbn [repeat concat]. rewrite app_nil_r.
  unfold extract, retryOrThrow, store. cbv zeta.
  intros H. crunch; try destruct (enableCaching self);
    first [ left; split; reflexivity
          | right; eexists _, _; split; [reflexivity|];
            split; [eassumption|]; repeat split
          | congruence ].
Qed.

(** One run of the body: it answers without calling the provider, or calls
    it once and is done, or calls it once and hands over to the retry. *)
Lemma attempt_cases (retry : option Run) (st : State) out st' :
  attempt self options retry st = (out, st') ->
  (calls st' = calls st /\ messages st' = messages st /\ cache st' = cache st
   /\ ((exists error, out = Thrown error)
       \/ exists c v, enableCaching self = true /\ cache st = Some c
            /\ cache_get (cacheOptions self options (messages st))
                 (requestId options) c = Some v
            /\ truthy v = true /\ out = Returned v))
  \/ (calls st' = calls st ++ [bodyOf self options (messages st) 1]
      /\ messages st' = messages st ++ pushed self options)
  \/ (exists again st2, retry = Some again /\ again st2 = (out, st')
        /\ calls st2 = calls st ++ [bodyOf self options (messages st) 1]
        /\ messages st2 = messages st ++ pushed self options
        /\ cache st2 = cache st).
Proof.
  unfold attempt. cbv zeta.
  set (st1 := logger (creatingLog self options (messages st)) st).
  assert (Hreq : request self options retry st1 = (out, st') ->
            (calls st' = calls st ++ [bodyOf self options (messages st) 1]
             /\ messages st' = messages st ++ pushed self options)
            \/ (exists again st2, retry = Some again /\ again st2 = (out, st')
                /\ calls st2 = calls st ++ [bodyOf self options (messages st) 1]
                /\ messages st2 = messages st ++ pushed self options
                /\ cache st2 = cache st))
    by (intros Hr; apply request_cases in Hr; exact Hr).
  destruct (enableCaching self) eqn:Hen; [|intros H; right; now apply Hreq].
  change (cache st1) with (cache st). change (messages st1) with (messages st).
  destruct (cache st) as [c|] eqn:Hc.
  - destruct (cache_get _ _ c) as [v|] eqn:Hg;
      [|intros H; right; now apply Hreq].
    destruct (truthy v) eqn:Hv; [|intros H; right; now apply Hreq].
    intros H; inversion H; subst. left. repeat split; eauto 10.
  - intros H; inversion H; subst. left. repeat split; eauto.
Qed.

Lemma createChatCompletion_unfold (retries : nat) :
  createChatCompletion self options retries
  = attempt self options
      (match retries with
       | 0 => None
       | S retries' => Some (createChatCompletion self options retries')
       end).
Proof.
  now destruct retries.
Qed.

Lemma bodyOf_shift (msgs : list ChatMessage) (k : nat) :
  bodyOf self options (msgs ++ pushed self options) k
  = bodyOf self options msgs (S k).
Proof.
  unfold bodyOf. cbn [repeat concat]. now rewrite <- app_assoc.
Qed.

(** The calls of a run: the [k]-th one sends the conversation as it is
    after [k] rounds of lines 177-192, and the conversation is left as the
    last call had it. *)
Lemma createChatCompletion_trace (retries : nat) :
  forall st out st',
    createChatCompletion self options retries st = (out, st') ->
    exists n, n <= S retries
      /\ calls st' = calls st
                     ++ map (bodyOf self options (messages st)) (seq 1 n)
      /\ messages st'
         = messages st ++ concat (repeat (pushed self options) n).
Proof.
  induction retries as [|retries IH]; intros st out st' H;
    rewrite createChatCompletion_unfold in H;
    apply attempt_cases in H;
    destruct H as [(Hc & Hm & _) | [(Hc & Hm) | (again & st2 & Hr & Ha & Hc & Hm & _)]];
    try discriminate;
    try (exists 0; cbn; rewrite !app_nil_r; repeat split; [lia | assumption..]);
    try (exists 1; cbn; rewrite !app_nil_r; repeat split; [lia | assumption..]).
  inversion Hr; subst again; clear Hr.
  destruct (IH _ _ _ Ha) as (n & Hn & Hc' & Hm').
  exists (S n); split; [lia|]. rewrite Hc, Hm in *. split.
  - rewrite Hc', <- app_assoc. f_equal. cbn [seq map app]. f_equal.
    rewrite <- (seq_shift n 1), map_map. apply map_ext.
    intros k. now rewrite bodyOf_shift.
  - rewrite Hm'. cbn [repeat concat]. now rewrite <- app_assoc.
Qed.

Lemma concat_repeat_one {A : Type} (x : A) (n : nat) :
  concat (repeat [x] n) = repeat x n.
Proof.
  induction n; cbn; congruence.
Qed.

Lemma attempt_missed (retry : option Run) (st : State) :
  missed self options (messages st) (cache st) ->
  attempt self options retry st
  = request self options retry
      (logger (creatingLog self options (messages st)) st).
Proof.
  unfold attempt, missed. cbv zeta.
  change (cache (logger (creatingLog self options (messages st)) st))
    with (cache st).
  change (messages (logger (creatingLog self options (messages st)) st))
    with (messages st).
  intros [Hoff | (c & Hc & Hget)].
  - now rewrite Hoff.
  - rewrite Hc.
    destruct (enableCaching self); [|reflexivity].
    destruct (cache_get _ _ c) as [v|] eqn:Hv; [|reflexivity].
    now rewrite (Hget _ eq_refl).
Qed.

Lemma unserved_first (st : State) (n : nat) :
  unserved self options st (S n) ->
  missed self options (messages st) (cache st).
Proof.
  intros H. specialize (H 0 ltac:(lia)). cbn [repeat concat] in H.
  now rewrite app_nil_r in H.
Qed.

Lemma unserved_next (st st2 : State) (n : nat) :
  cache st2 = cache st ->
  messages st2 = messages st ++ pushed self options ->
  unserved self options st (S n) -> unserved self options st2 n.
Proof.
  intros Hk Hm H j Hj. specialize (H (S j) ltac:(lia)).
  rewrite Hk, Hm, <- app_assoc. exact H.
Qed.

(** Whatever the kind of the failure, the run ends in the same
    retry-or-throw on the one counter. *)
Lemma request_failure (retry : option Run) (st : State) (f : Failure) :
  failureOf options
    (create self (calls st) (bodyOf self options (messages st) 1)) = Some f ->
  exists st2,
    request self options retry st = retryOrThrow retry (errorOf f) st2
    /\ calls st2 = calls st ++ [bodyOf self options (messages st) 1]
    /\ messages st2 = messages st ++ pushed self options
    /\ cache st2 = cache st.
Proof.
  unfold request, bodyOf. rewrite applyResponseModel_eq.
  cbn [repeat concat]. rewrite app_nil_r. cbv zeta.
  change (calls (logger ?l (grow ?p st))) with (calls st).
  change (messages (logger ?l (grow ?p st))) with (messages st ++ p).
  unfold failureOf, extract, validateZodSchema, try_catch.
  destruct (create self _ _) as [error|response]; [discriminate|].
  destruct response as [r|]; cbn [firstMessage];
    [|intros H; inversion H; subst; eexists; split; [reflexivity|]; now repeat split].
  destruct (firstMessage (Some r)) as [m|] eqn:Hm; cbn [firstMessage] in Hm;
    rewrite Hm;
    [|intros H; inversion H; subst; eexists; split; [reflexivity|]; now repeat split].
  destruct (response_model options) as [rm|]; [|discriminate].
  destruct (msg_content m) as [[|a data]|];
    try (intros H; inversion H; subst; eexists; split; [reflexivity|];
         now repeat split).
  destruct (JSON_parse _) as [error|parsedData];
    [intros H; inversion H; subst; eexists; split; [reflexivity|];
     now repeat split|].
  destruct (Schema_parse _ _); [|discriminate].
  intros H; inversion H; subst.
  destruct retry as [again|]; cbn [retryOrThrow errorOf];
    eexists; (split; [reflexivity|]); now repeat split.
Qed.

Lemma attempt_failure (retry : option Run) (st : State) (f : Failure) :
  missed self options (messages st) (cache st) ->
  failureOf options
    (create self (calls st) (bodyOf self options (messages st) 1)) = Some f ->
  exists st2,
    attempt self options retry st = retryOrThrow retry (errorOf f) st2
    /\ calls st2 = calls st ++ [bodyOf self options (messages st) 1]
    /\ messages st2 = messages st ++ pushed self options
    /\ cache st2 = cache st.
Proof.
  intros Hno Hf. rewrite attempt_missed by assumption.
  destruct (request_failure retry
              (logger (creatingLog self options (messages st)) st) f Hf)
    as (st2 & Hr & Hc & Hm & Hk).
  now exists st2.
Qed.

(** With no lookup served and nothing but failures, a run with [retries]
    retries calls the provider [retries + 1] times and throws for the last
    failure. *)
Lemma exhaustion (retries : nat) :
  (forall sent body, failureOf options (create self sent body) <> None) ->
  forall st, unserved self options st (S retries) ->
    exists f st',
      createChatCompletion self options retries st = (Thrown (errorOf f), st')
      /\ length (calls st') = length (calls st) + retries + 1
      /\ exists sent body, failureOf options (create self sent body) = Some f.
Proof.
  intros Hfail. induction retries as [|retries IH]; intros st Hno;
    rewrite createChatCompletion_unfold;
    destruct (failureOf options
                (create self (calls st) (bodyOf self options (messages st) 1)))
      as [f|] eqn:Hf; try (now destruct (Hfail _ _ Hf)).
  - destruct (attempt_failure None st f (unserved_first _ _ Hno) Hf)
      as (st2 & Hr & Hc & Hm & Hk).
    exists f, st2. split; [exact Hr|]. split; [|eauto].
    rewrite Hc, length_app. cbn. lia.
  - destruct (attempt_failure
                (Some (createChatCompletion self options retries))
                st f (unserved_first _ _ Hno) Hf) as (st2 & Hr & Hc & Hm & Hk).
    cbn [retryOrThrow] in Hr.
    destruct (IH st2 (unserved_next _ _ _ Hk Hm Hno))
      as (f' & st' & Hrun & Hlen & Hex).
    exists f', st'. split; [congruence|]. split; [|assumption].
    rewrite Hlen, Hc, length_app. cbn. lia.
Qed.

Lemma cache_hit (retries : nat) (st : State) (c : LLMCache) (v : Value) :
  enableCaching self = true ->
  cache st = Some c ->
  cache_get (cacheOptions self options (messages st)) (requestId options) c
  = Some v ->
  truthy v = true ->
  createChatCompletion self options retries st
  = (Returned v,
     logger (cacheHitLog options v)
       (logger (creatingLog self options (messages st)) st)).
Proof.
  intros Hen Hc Hg Hv. rewrite createChatCompletion_unfold.
  unfold attempt. cbv zeta.
  change (cache (logger (creatingLog self options (messages st)) st))
    with (cache st).
  change (messages (logger (creatingLog self options (messages st)) st))
    with (messages st).
  now rewrite Hen, Hc, Hg, Hv.
Qed.

(** A value returned without a call to the provider came from the
    cache. *)
Lemma served_from_cache (retries : nat) (st st1 : State) (v : Value) :
  createChatCompletion self options retries st = (Returned v, st1) ->
  calls st1 = calls st ->
  exists c, enableCaching self = true /\ cache st = Some c
    /\ cache_get (cacheOptions self options (messages st))
         (requestId options) c = Some v
    /\ truthy v = true.
Proof.
  intros H Hcalls. rewrite createChatCompletion_unfold in H.
  apply attempt_cases in H.
  destruct H as [(_ & _ & _ & [(e & He) | (c & v' & Hen & Hc & Hg & Hv & Hr)])
                | [(Hc & _) | (again & st2 & Hr & Ha & Hc & _)]].
  - discriminate.
  - inversion Hr; subst v'. eauto.
  - exfalso. rewrite Hcalls in Hc.
    apply (f_equal (@length _)) in Hc. rewrite length_app in Hc. cbn in Hc. lia.
  - exfalso. destruct retries as [|retries]; [discriminate|].
    inversion Hr; subst again.
    apply createChatCompletion_trace in Ha. destruct Ha as (n & _ & Hc' & _).
    rewrite Hcalls, Hc in Hc'. apply (f_equal (@length _)) in Hc'.
    rewrite !length_app in Hc'. cbn in Hc'. lia.
Qed.

(** C1 (as amended): when none of the cache lookups of the run is served
    (caching is off, or the cache holds under the key of the request, as
    each attempt builds it, nothing or a falsy value; what it holds under
    other keys does not matter) and every remote call yields a response
    with no usable first-choice message, a run with retry budget N makes
    exactly N+1 remote calls and then throws the error of the empty
    response.  The budget is one counter for every kind of retryable
    failure: when each remote call yields an empty response, a message
    without content, a text that does not parse or a value that does not
    match the schema, in any mixture, the run still makes exactly N+1 calls
    before it throws. *)
Theorem retry_budget_is_shared (retries : nat) (st : State) :
  unserved self options st (retries + 1) ->
  ((forall sent body, failureOf options (create self sent body) <> None) ->
   exists f st',
     createChatCompletion self options retries st = (Thrown (errorOf f), st')
     /\ length (calls st') = length (calls st) + retries + 1)
  /\ ((forall sent body, exists response,
         create self sent body = Resolved response
         /\ firstMessage response = None) ->
      exists st',
        createChatCompletion self options retries st
        = (Thrown "Invalid or empty response from OpenRouter API", st')
        /\ length (calls st') = length (calls st) + retries + 1).
Proof.
  intros Hno; rewrite Nat.add_1_r in Hno; split; intros Hall.
  - destruct (exhaustion retries Hall st Hno) as (f & st' & Hrun & Hlen & _).
    eauto.
  - assert (Hempty : forall sent body,
              failureOf options (create self sent body) = Some EmptyResponse).
    { intros sent body. destruct (Hall sent body) as (r & Hr & Hm).
      unfold failureOf. now rewrite Hr, Hm. }
    assert (Hfail : forall sent body,
              failureOf options (create self sent body) <> None)
      by (intros sent body; rewrite Hempty; discriminate).
    destruct (exhaustion retries Hfail st Hno)
      as (f & st' & Hrun & Hlen & sent & body & Hf).
    rewrite Hempty in Hf. inversion Hf; subst f. eauto.
Qed.

Lemma concat_repeat_nil {A : Type} (n : nat) :
  concat (repeat (@nil A) n) = [].
Proof.
  induction n; cbn; auto.
Qed.

(** The messages of the [k]-th body of a run, written out: the caller's
    messages as formatted, then, for a response_model under a model whose
    name starts with google/gemini, [k] times the instruction, which goes
    out as a user message. *)
Lemma bodyOf_messages (msgs : list ChatMessage) (k : nat) :
  b_messages (bodyOf self options msgs k)
  = map formatMessage msgs
    ++ match response_model options with
       | Some rm =>
           if prefix "google/gemini" (modelName self)
           then repeat
                  {| w_role := user;
                     w_content := WPlain
                       ("Please format your response according to this schema:"
                        ++ String LF (JSON_stringify (schema rm)
                        ++ String LF (String LF
                           "Respond with only the JSON object, no additional text or formatting."))) |} k
           else []
       | None => []
       end.
Proof.
  unfold bodyOf, pushed, isGemini. cbn [mkBody b_messages].
  rewrite map_app. f_equal.
  destruct (response_model options) as [rm|];
    [destruct (prefix _ _)|];
    rewrite ?concat_repeat_one, ?concat_repeat_nil; try reflexivity.
  now rewrite map_repeat.
Qed.

Lemma nth_sent (msgs : list ChatMessage) (n k : nat) (body : Body) :
  nth_error (map (bodyOf self options msgs) (seq 1 n)) k = Some body ->
  k < n /\ body = bodyOf self options msgs (S k).
Proof.
  intros H.
  assert (Hk : k < n).
  { assert (Hsome : nth_error (map (bodyOf self options msgs) (seq 1 n)) k
                    <> None) by congruence.
    apply nth_error_Some in Hsome.
    now rewrite length_map, length_seq in Hsome. }
  split; [exact Hk|].
  rewrite nth_error_map in H.
  destruct (nth_error (seq 1 n) k) as [i|] eqn:Hi; [|discriminate].
  apply (nth_error_nth _ _ 0) in Hi. rewrite seq_nth in Hi by exact Hk.
  cbn in H. inversion H. now subst i.
Qed.

Lemma nth_sent_after (st st' : State) (msgs : list ChatMessage) (n k : nat)
  (body : Body) :
  calls st' = calls st ++ map (bodyOf self options msgs) (seq 1 n) ->
  nth_error (calls st') (length (calls st) + k) = Some body ->
  k < n /\ body = bodyOf self options msgs (S k).
Proof.
  intros Hc H. rewrite Hc, nth_error_app2 in H by lia.
  replace (length (calls st) + k - length (calls st)) with k in H by lia.
  now apply nth_sent.
Qed.


Lemma filter_text_parts (parts : list ContentPart) :
  filter isText (map formatPart parts)
  = map formatPart (filter (fun c => negb (isImage c)) parts).
Proof.
  induction parts as [|[url|txt] parts IH]; cbn; congruence.
Qed.

(** C6: a message whose content is an array of parts keeps, under the
    role system or assistant, its text parts only, in their order and
    without any image part, and under the role user all of its parts; a
    text part goes out as a part of type text with its text, an image part
    as a part of type image_url with its url. *)
Theorem array_content_by_role (parts : list ContentPart) :
  formatMessage {| role := system; content := Parts parts |}
  = {| w_role := system;
       w_content :=
         WParts (map formatPart (filter (fun c => negb (isImage c)) parts)) |}
  /\ formatMessage {| role := assistant; content := Parts parts |}
     = {| w_role := assistant;
          w_content :=
            WParts (map formatPart (filter (fun c => negb (isImage c)) parts)) |}
  /\ formatMessage {| role := user; content := Parts parts |}
     = {| w_role := user; w_content := WParts (map formatPart parts) |}
  /\ (forall txt, formatPart (TextContent txt) = TextPart txt
                  /\ part_type (TextPart txt) = "text")
  /\ (forall url, formatPart (ImageContent url) = ImagePart url
                  /\ part_type (ImagePart url) = "image_url").
Proof.
  unfold formatMessage; cbn [content role].
  rewrite filter_text_parts. repeat split.
Qed.

(** C7: a message whose content is a plain string goes out as a user
    message with that string, whatever role it declared; so does the
    schema instruction, which the client declares with the role system. *)
Theorem plain_content_becomes_user :
  (forall (r : Role) (s : string),
     formatMessage {| role := r; content := Plain s |}
     = {| w_role := user; w_content := WPlain s |})
  /\ (forall rm : ResponseModel,
        role (schemaInstruction rm) = system
        /\ exists s, content (schemaInstruction rm) = Plain s
             /\ formatMessage (schemaInstruction rm)
                = {| w_role := user; w_content := WPlain s |}).
Proof.
  split.
  - intros r s. reflexivity.
  - intros rm. split; [reflexivity|].
    eexists. split; reflexivity.
Qed.

(** C9: validateZodSchema always returns a boolean and never throws; the
    boolean is true exactly when schema.parse(data) returns, and false
    exactly when it throws, whatever it throws. *)
Theorem validateZodSchema_total (s : Schema) (data : Json) :
  exists b, validateZodSchema s data = inr b
    /\ (b = true <-> exists v, Schema_parse s data = inr v)
    /\ (b = false <-> exists error, Schema_parse s data = inl error).
Proof.
  unfold validateZodSchema, try_catch.
  destruct (Schema_parse s data) as [error|v].
  - exists false. repeat split; eauto; try discriminate.
    intros (v & Hv); discriminate.
  - exists true. repeat split; eauto; try discriminate.
    intros (e & He); discriminate.
Qed.

(** C8 (as amended): with caching on, when the lookup returns a value
    that is truthy, the run returns that value as it is; it calls the
    provider not at all, leaves the messages and the cache as they were,
    logs the hit, and does so whatever the retry budget.  When the value the
    lookup returns is falsy, it is treated as a miss: the run is the one of
    lines 177-385, so whatever its outcome the provider has been called, the
    first time with the messages of the request, and the value of the cache
    is returned only if the provider gives it again. *)
Theorem cache_hit_short_circuits (retries : nat) (st : State) (c : LLMCache)
  (v : Value) :
  enableCaching self = true ->
  cache st = Some c ->
  cache_get (cacheOptions self options (messages st)) (requestId options) c
  = Some v ->
  (truthy v = true ->
   exists st',
     createChatCompletion self options retries st = (Returned v, st')
     /\ calls st' = calls st
     /\ messages st' = messages st
     /\ cache st' = cache st
     /\ logs st' = logs st ++ [creatingLog self options (messages st);
                               cacheHitLog options v]
     /\ forall retries',
          createChatCompletion self options retries' st = (Returned v, st'))
  /\ (truthy v = false ->
      createChatCompletion self options retries st
      = request self options
          (match retries with
           | 0 => None
           | S retries' => Some (createChatCompletion self options retries')
           end)
          (logger (creatingLog self options (messages st)) st)
      /\ forall out st',
           createChatCompletion self options retries st = (out, st') ->
           exists body rest,
             calls st' = calls st ++ body :: rest
             /\ b_model body = modelName self
             /\ b_messages body
                = map formatMessage (messages st)
                  ++ match response_model options with
                     | Some rm =>
                         if prefix "google/gemini" (modelName self)
                         then [ {| w_role := user;
                                   w_content := WPlain
                                     ("Please format your response according to this schema:"
                                      ++ String LF (JSON_stringify (schema rm)
                                      ++ String LF (String LF
                                         "Respond with only the JSON object, no additional text or formatting."))) |} ]
                         else []
                     | None => []
                     end).
Proof.
  intros Hen Hc Hg. split; intros Hv.
  - eexists. split; [now apply (cache_hit retries st c)|].
    cbn. repeat split.
    + now rewrite <- app_assoc.
    + intros retries'. now apply (cache_hit retries' st c).
  - assert (Hrun : createChatCompletion self options retries st
                   = request self options
                       (match retries with
                        | 0 => None
                        | S retries' =>
                            Some (createChatCompletion self options retries')
                        end)
                       (logger (creatingLog self options (messages st)) st)).
    { rewrite createChatCompletion_unfold. apply attempt_missed.
      right. exists c. split; [assumption|].
      intros w Hw. rewrite Hg in Hw. now inversion Hw; subst w. }
    split; [exact Hrun|].
    intros out st' H. rewrite Hrun in H. apply request_cases in H.
    change (calls (logger (creatingLog self options (messages st)) st))
      with (calls st) in H.
    change (messages (logger (creatingLog self options (messages st)) st))
      with (messages st) in H.
    destruct H as [(Hcalls & _) | (again & st2 & Hr & Ha & Hcalls & Hm & _)].
    + exists (bodyOf self options (messages st) 1), [].
      split; [exact Hcalls|]. split; [reflexivity|].
      apply (bodyOf_messages (messages st) 1).
    + destruct retries as [|retries']; [discriminate|].
      inversion Hr; subst again.
      apply createChatCompletion_trace in Ha.
      destruct Ha as (n & _ & Hc' & _).
      exists (bodyOf self options (messages st) 1),
             (map (bodyOf self options (messages st2)) (seq 1 n)).
      split; [rewrite Hc', Hcalls; now rewrite <- app_assoc|].
      split; [reflexivity|].
      apply (bodyOf_messages (messages st) 1).
Qed.

(** C10: when the request carries a response_model and the model name
    starts with google/gemini, a run pushes the schema instruction (the
    system message that asks for a response formatted according to the
    schema) onto the caller's messages once for every call it makes to the
    provider: the k-th call sends the caller's conversation as formatted,
    followed by k copies of the instruction, each sent as a user message,
    and no response format; and the messages are left with as many copies
    as calls were made.  When none of the lookups of the cache is served
    and every call fails, that is one copy for the first attempt and one
    more for each of the retries. *)
Theorem instruction_pushed_on_every_attempt (rm : ResponseModel)
  (retries : nat) (st : State) out st' :
  response_model options = Some rm ->
  prefix "google/gemini" (modelName self) = true ->
  createChatCompletion self options retries st = (out, st') ->
  exists n, n <= retries + 1
    /\ messages st' = messages st ++ repeat (schemaInstruction rm) n
    /\ messages st'
       = messages st
         ++ repeat
              {| role := system;
                 content := Plain
                   ("Please format your response according to this schema:"
                    ++ String LF (JSON_stringify (schema rm)
                    ++ String LF (String LF
                       "Respond with only the JSON object, no additional text or formatting."))) |} n
    /\ calls st'
       = calls st
         ++ map (fun k => mkBody self options None
                            (messages st ++ repeat (schemaInstruction rm) k))
              (seq 1 n)
    /\ length (calls st') = length (calls st) + n
    /\ (forall k body,
          nth_error (calls st') (length (calls st) + k) = Some body ->
          b_response_format body = None
          /\ b_messages body
             = map formatMessage (messages st)
               ++ repeat
                    {| w_role := user;
                       w_content := WPlain
                         ("Please format your response according to this schema:"
                          ++ String LF (JSON_stringify (schema rm)
                          ++ String LF (String LF
                             "Respond with only the JSON object, no additional text or formatting."))) |} (S k))
    /\ (unserved self options st (retries + 1) ->
        (forall sent body, failureOf options (create self sent body) <> None) ->
        n = retries + 1).
Proof.
  intros Hrm Hg H.
  assert (Hp : pushed self options = [schemaInstruction rm])
    by (unfold pushed, isGemini; now rewrite Hrm, Hg).
  assert (Hf : responseFormatOf self options = None)
    by (unfold responseFormatOf, isGemini; now rewrite Hrm, Hg).
  destruct (createChatCompletion_trace retries _ _ _ H) as (n & Hn & Hc & Hm).
  exists n. rewrite Hp, concat_repeat_one in Hm.
  split; [lia|]. split; [exact Hm|]. split; [exact Hm|]. split; [|split; [|split]].
  - rewrite Hc. f_equal. apply map_ext. intros k.
    unfold bodyOf. now rewrite Hp, Hf, concat_repeat_one.
  - now rewrite Hc, length_app, length_map, length_seq.
  - intros k body Hnth.
    destruct (nth_sent_after st st' (messages st) n k body Hc Hnth)
      as (_ & ->).
    split.
    + unfold bodyOf. now rewrite Hf.
    + rewrite bodyOf_messages. now rewrite Hrm, Hg.
  - intros Hno Hfail. rewrite Nat.add_1_r in Hno.
    destruct (exhaustion retries Hfail st Hno) as (f & st'' & Hrun & Hlen & _).
    rewrite H in Hrun. inversion Hrun; subst st''.
    rewrite Hc, length_app, length_map, length_seq in Hlen. lia.
Qed.

End Properties.

(** ** The cache key *)

Lemma cache_get_ignores_requestId {E : Externs} (key : CacheOptions)
  (rid rid' : string) (c : LLMCache) :
  cache_get key rid c = cache_get key rid' c.
Proof.
  induction c as [|[k [v r]] c IH]; cbn; [reflexivity|].
  now destruct (CacheOptions_eq_dec key k).
Qed.

(** C2 (as amended): the cache key is made of the model name, the
    messages, temperature, top_p, frequency_penalty, presence_penalty, the
    image and the whole response_model (its name and its schema), and of
    nothing else: two keys are equal exactly when these agree, whatever the
    request identifiers.  For two requests that agree on them, a cache hit
    for the first (its value returned without a call to the provider) is
    returned as it is for the second, without a call to the provider. *)
Theorem cache_key_content {E : Externs} (self : OpenRouterClient)
  (options options' : Options) :
  (forall (self' : OpenRouterClient) (msgs msgs' : list ChatMessage),
     cacheOptions self options msgs = cacheOptions self' options' msgs'
     <-> modelName self = modelName self' /\ msgs = msgs'
         /\ sameContent options options')
  /\ (sameContent options options' ->
      forall retries retries' st v st1,
        createChatCompletion self options retries st = (Returned v, st1) ->
        calls st1 = calls st ->
        exists st2,
          createChatCompletion self options' retries' st = (Returned v, st2)
          /\ calls st2 = calls st).
Proof.
  unfold sameContent; split.
  - intros self' msgs msgs'; unfold cacheOptions; split.
    + intros H; inversion H; auto 10.
    + intros (-> & -> & -> & -> & -> & -> & -> & ->); reflexivity.
  - intros (Ht & Hp & Hf & Hpp & Hi & Hr) retries retries' st v st1 Hrun Hcalls.
    destruct (served_from_cache self options retries st st1 v Hrun Hcalls)
      as (c & Hen & Hc & Hg & Hv).
    eexists; split.
    + apply (cache_hit self options' retries' st c v); try assumption.
      rewrite (cache_get_ignores_requestId _ _ (requestId options)).
      unfold cacheOptions in *. now rewrite <- Ht, <- Hp, <- Hf, <- Hpp, <- Hi, <- Hr.
    + reflexivity.
Qed.

(** ** The statements at work on the small environment *)

Lemma retry_budget_witness :
  exists st',
    createChatCompletion (tinyClient gemini true emptyAnswer)
      (countOptions "r1") 2 (start (Some (cached gpt (JNum 7))))
    = (Thrown "Invalid or empty response from OpenRouter API", st')
    /\ length (calls st') = 3.
Proof.
  apply (retry_budget_is_shared (tinyClient gemini true emptyAnswer)
           (countOptions "r1") 2 (start (Some (cached gpt (JNum 7))))).
  - intros j Hj. right. eexists. split; [reflexivity|].
    destruct j as [|[|[|j]]]; [ | | | lia];
      intros v Hv; vm_compute in Hv; discriminate.
  - intros sent body. eexists; split; reflexivity.
Defined.

(** C1, as stated, fails: with caching on, once a call has stored its
    result, a run of the same request whose provider answers every call
    with an empty response makes no call at all and returns the cached
    value. *)
Lemma cache_hit_preempts_retries :
  cache (snd (createChatCompletion (tinyClient gpt true (answer (Some "7")))
                (countOptions "r0") 0 (start (Some []))))
  = Some (cached gpt (JNum 7))
  /\ (forall sent body,
        create (tinyClient gpt true emptyAnswer) sent body = emptyAnswer)
  /\ firstMessage (Some {| id := "gen-0"; choices := Some [] |}) = None
  /\ fst (createChatCompletion (tinyClient gpt true emptyAnswer)
            (countOptions "r1") 2 (start (Some (cached gpt (JNum 7)))))
     = Returned (@Parsed tiny (JNum 7))
  /\ calls (snd (createChatCompletion (tinyClient gpt true emptyAnswer)
                   (countOptions "r1") 2
                   (start (Some (cached gpt (JNum 7))))))
     = [].
Proof.
  repeat split.
Qed.

Lemma cache_key_witness :
  exists st2,
    createChatCompletion (tinyClient gpt true emptyAnswer)
      (countOptions "r2") 0 (start (Some (cached gpt (JNum 7))))
    = (Returned (@Parsed tiny (JNum 7)), st2)
    /\ calls st2 = [].
Proof.
  destruct (cache_key_content (tinyClient gpt true emptyAnswer)
              (countOptions "r1") (countOptions "r2")) as [_ H].
  apply (H ltac:(repeat split) 3 0 (start (Some (cached gpt (JNum 7)))) _
           (snd (createChatCompletion (tinyClient gpt true emptyAnswer)
                   (countOptions "r1") 3
                   (start (Some (cached gpt (JNum 7))))))); reflexivity.
Defined.

(** C2, as stated, fails: two requests that agree on everything the claim
    lists, the schema name included, but ask for different schemas have
    different keys, and the entry stored for the first is not returned for
    the second; and a stored entry that is falsy is not returned either. *)
Lemma same_name_other_schema_misses :
  option_map (@name tiny) (response_model (countOptions "r1"))
  = option_map (@name tiny) (response_model (flagOptions "r2"))
  /\ cache_get (cacheOptions (tinyClient gpt true (answer (Some "true")))
                  (countOptions "r1") ask) "r1" (cached gpt (JNum 7))
     = Some (@Parsed tiny (JNum 7))
  /\ fst (createChatCompletion (tinyClient gpt true (answer (Some "true")))
            (flagOptions "r2") 3 (start (Some (cached gpt (JNum 7)))))
     = Returned (@Parsed tiny (JBool true))
  /\ length (calls (snd (createChatCompletion
                           (tinyClient gpt true (answer (Some "true")))
                           (flagOptions "r2") 3
                           (start (Some (cached gpt (JNum 7)))))))
     = 1
  /\ cache_get (cacheOptions (tinyClient gpt true (answer (Some "7")))
                  (countOptions "r1") ask) "r1" (cached gpt (JNum 0))
     = Some (@Parsed tiny (JNum 0))
  /\ length (calls (snd (createChatCompletion
                           (tinyClient gpt true (answer (Some "7")))
                           (countOptions "r2") 3
                           (start (Some (cached gpt (JNum 0)))))))
     = 1.
Proof.
  repeat split.
Qed.

(** C3: the code at a value that parses and fails the schema, with no
    retry left: the error thrown for the mismatch is caught by the catch
    block of the same try, so the run logs the event of a parse failure and
    throws its error, as it does for a text that is not JSON.  With a retry
    left the mismatch is retried and no event tells of it. *)
Lemma schema_mismatch_reported_as_parse_failure :
  createChatCompletion (tinyClient gpt false (answer (Some "7")))
    (flagOptions "r1") 0 (start None)
  = (Thrown
       "Failed to parse response: Response does not match the required schema",
     {| messages := ask; cache := None;
        calls := [bodyOf (tinyClient gpt false (answer (Some "7")))
                    (flagOptions "r1") ask 1];
        logs := [creatingLog (tinyClient gpt false (answer (Some "7")))
                   (flagOptions "r1") ask;
                 sendingLog (tinyClient gpt false (answer (Some "7")))
                   (flagOptions "r1") ask;
                 responseLog (flagOptions "r1")
                   (Some {| id := "gen-1";
                            choices := Some [ {| message :=
                              Some {| msg_content := Some "7" |} |} ] |});
                 parseFailureLog
                   "Response does not match the required schema" "7"] |})
  /\ fst (createChatCompletion (tinyClient gpt false (answer (Some "<html>")))
            (flagOptions "r1") 0 (start None))
     = Thrown "Failed to parse response: Unexpected token"
  /\ map log_message
       (logs (snd (createChatCompletion
                     (tinyClient gpt false (answer (Some "<html>")))
                     (flagOptions "r1") 0 (start None))))
     = map log_message
         (logs (snd (createChatCompletion
                       (tinyClient gpt false (answer (Some "7")))
                       (flagOptions "r1") 0 (start None))))
  /\ map log_message
       (logs (snd (createChatCompletion
                     (tinyClient gpt false (answer (Some "7")))
                     (flagOptions "r1") 1 (start None))))
     = ["creating chat completion"; "creating chat completion"; "response";
        "creating chat completion"; "creating chat completion"; "response";
        "Failed to parse response"].
Proof.
  repeat split.
Qed.


Lemma cache_hit_witness :
  (exists st',
     createChatCompletion (tinyClient gpt true (answer (Some "8")))
       (countOptions "r1") 3 (start (Some (cached gpt (JNum 7))))
     = (Returned (@Parsed tiny (JNum 7)), st')
     /\ calls st' = []
     /\ messages st' = ask
     /\ cache st' = Some (cached gpt (JNum 7)))
  /\ exists body rest,
       calls (snd (createChatCompletion
                     (tinyClient gpt true (answer (Some "8")))
                     (countOptions "r1") 3
                     (start (Some (cached gpt (JNum 0))))))
       = body :: rest
       /\ b_model body = gpt
       /\ b_messages body
          = [ {| w_role := user; w_content := WPlain "how many?" |} ].
Proof.
  split.
  - destruct (proj1 (cache_hit_short_circuits
                       (tinyClient gpt true (answer (Some "8")))
                       (countOptions "r1") 3
                       (start (Some (cached gpt (JNum 7))))
                       (cached gpt (JNum 7)) (@Parsed tiny (JNum 7))
                       eq_refl eq_refl eq_refl) eq_refl)
      as (st' & Hrun & Hc & Hm & Hk & _).
    exists st'. auto.
  - destruct (proj2 (cache_hit_short_circuits
                       (tinyClient gpt true (answer (Some "8")))
                       (countOptions "r1") 3
                       (start (Some (cached gpt (JNum 0))))
                       (cached gpt (JNum 0)) (@Parsed tiny (JNum 0))
                       eq_refl eq_refl eq_refl) eq_refl)
      as (_ & Hcalled).
    exact (Hcalled _ _ (surjective_pairing _)).
Defined.

(** C8, as stated, fails: a call that returns the number 0 stores it, and
    the next call of the same request finds it in the cache, does not take
    it for a hit, and calls the provider. *)
Lemma falsy_cached_value_is_not_served :
  cache (snd (createChatCompletion (tinyClient gpt true (answer (Some "0")))
                (countOptions "r0") 3 (start (Some []))))
  = Some (cached gpt (JNum 0))
  /\ cache_get (cacheOptions (tinyClient gpt true (answer (Some "7")))
                  (countOptions "r1") ask) "r1" (cached gpt (JNum 0))
     = Some (@Parsed tiny (JNum 0))
  /\ fst (createChatCompletion (tinyClient gpt true (answer (Some "7")))
            (countOptions "r1") 3 (start (Some (cached gpt (JNum 0)))))
     = Returned (@Parsed tiny (JNum 7))
  /\ length (calls (snd (createChatCompletion
                           (tinyClient gpt true (answer (Some "7")))
                           (countOptions "r1") 3
                           (start (Some (cached gpt (JNum 0)))))))
     = 1.
Proof.
  repeat split.
Qed.

Lemma instruction_witness :
  exists n, n <= 3
    /\ messages (snd (createChatCompletion
                        (tinyClient gemini false (answer (Some "x")))
                        (countOptions "r1") 2 (start None)))
       = ask ++ repeat (schemaInstruction (wanted "count" ZNumber)) n
    /\ n = 3.
Proof.
  destruct (instruction_pushed_on_every_attempt
              (tinyClient gemini false (answer (Some "x")))
              (countOptions "r1") (wanted "count" ZNumber) 2 (start None)
              _ _ eq_refl eq_refl
              (surjective_pairing _))
    as (n & Hn & Hm & _ & _ & _ & _ & Hall).
  exists n. split; [exact Hn|]. split; [exact Hm|].
  apply Hall.
  - intros j Hj. left; reflexivity.
  - intros sent body; discriminate.
Defined.

(** ** Two more facts about a run *)

Section Further.

Context {E : Externs}.

Variable self : OpenRouterClient.
Variable options : Options.

Lemma cache_get_set_other (key key' : CacheOptions) (v : Value)
  (rid rid' : string) (c : LLMCache) :
  key <> key' ->
  cache_get key rid (cache_set key' v rid' c) = cache_get key rid c.
Proof.
  intros Hneq. unfold cache_set. cbn [cache_get].
  destruct (CacheOptions_eq_dec key key') as [Heq|_]; [contradiction|].
  induction c as [|[k [w r]] c IH]; cbn [filter cache_get fst]; [reflexivity|].
  destruct (CacheOptions_eq_dec key' k) as [<-|Hk].
  - rewrite IH. now destruct (CacheOptions_eq_dec key key').
  - cbn [cache_get]. now rewrite IH.
Qed.

(** The key of the cache holds the array [options.messages] itself.  When
    the request carries a response_model and the model name starts with
    google/gemini, the instruction is pushed onto that array after the
    lookup and before the result is stored: the result of a first attempt
    that succeeds is stored under the key with the instruction in its
    messages, and the key the lookup used still has no entry. *)
Theorem result_stored_under_grown_key (rm : ResponseModel) (retries : nat)
  (st : State) (c : LLMCache) (r : ChatCompletion) (m : ResponseMessage)
  (a : ascii) (data : string) (v v' : Json) :
  response_model options = Some rm ->
  prefix "google/gemini" (modelName self) = true ->
  enableCaching self = true ->
  cache st = Some c ->
  (forall rid, cache_get (cacheOptions self options (messages st)) rid c = None) ->
  create self (calls st) (bodyOf self options (messages st) 1)
  = Resolved (Some r) ->
  firstMessage (Some r) = Some m ->
  msg_content m = Some (String a data) ->
  JSON_parse (cleanContent (String a data)) = inr v ->
  Schema_parse (schema rm) v = inr v' ->
  exists st',
    createChatCompletion self options retries st = (Returned (Parsed v), st')
    /\ cache st'
       = Some (cache_set
                 (cacheOptions self options
                    (messages st ++ [schemaInstruction rm]))
                 (Parsed v) (requestId options) c)
    /\ forall c' rid, cache st' = Some c' ->
         cache_get (cacheOptions self options (messages st)) rid c' = None.
Proof.
  intros Hrm Hg Hen Hc Hmiss Hcreate Hfirst Hcontent Hparse Hvalid.
  assert (Hp : pushed self options = [schemaInstruction rm])
    by (unfold pushed, isGemini; now rewrite Hrm, Hg).
  unfold bodyOf in Hcreate. rewrite Hp in Hcreate.
  cbn [repeat concat app] in Hcreate.
  rewrite createChatCompletion_unfold. unfold attempt. cbv zeta.
  change (cache (logger (creatingLog self options (messages st)) st))
    with (cache st).
  change (messages (logger (creatingLog self options (messages st)) st))
    with (messages st).
  rewrite Hen, Hc, (Hmiss (requestId options)).
  unfold request. rewrite applyResponseModel_eq, Hp. cbv zeta.
  change (calls (logger ?l (grow ?p (logger ?l' st)))) with (calls st).
  change (messages (logger ?l (grow ?p (logger ?l' st))))
    with (messages st ++ p).
  rewrite Hcreate, Hfirst, Hrm.
  unfold extract, validateZodSchema, try_catch, store.
  rewrite Hcontent, Hparse, Hvalid, Hen.
  eexists. split; [reflexivity|]. cbn [cache logger sent grow].
  rewrite Hc. cbn [option_map messages logger sent grow].
  split; [reflexivity|].
  intros c' rid Hc'. inversion Hc'; subst c'.
  rewrite cache_get_set_other; [apply Hmiss|].
  unfold cacheOptions. intros Heq. inversion Heq as [Hm].
  apply (f_equal (@length _)) in Hm. rewrite length_app in Hm. cbn in Hm. lia.
Qed.

(** A call that the provider rejects is not retried: when the lookup of
    the cache for this request is not served, the run makes that one call
    and throws what the call threw, whatever the budget and whatever the
    cache holds under other keys. *)
Theorem rejected_call_is_not_retried (retries : nat) (st : State)
  (error : string) :
  missed self options (messages st) (cache st) ->
  create self (calls st) (bodyOf self options (messages st) 1)
  = Rejected error ->
  exists st',
    createChatCompletion self options retries st = (Thrown error, st')
    /\ calls st' = calls st ++ [bodyOf self options (messages st) 1].
Proof.
  intros Hno Hcreate.
  rewrite createChatCompletion_unfold, attempt_missed by assumption.
  unfold request, bodyOf in *. rewrite applyResponseModel_eq. cbv zeta.
  cbn [repeat concat] in *. rewrite app_nil_r in *.
  change (calls (logger ?l (grow ?p (logger ?l' st)))) with (calls st).
  change (messages (logger ?l (grow ?p (logger ?l' st))))
    with (messages st ++ p).
  rewrite Hcreate. eexists; split; reflexivity.
Qed.

End Further.

Lemma grown_key_witness :
  exists st',
    createChatCompletion (tinyClient gemini true (answer (Some "7")))
      (countOptions "r1") 3 (start (Some []))
    = (Returned (@Parsed tiny (JNum 7)), st')
    /\ forall c' rid, cache st' = Some c' ->
         cache_get (cacheOptions (tinyClient gemini true (answer (Some "7")))
                      (countOptions "r1") ask) rid c' = None.
Proof.
  destruct (result_stored_under_grown_key
              (tinyClient gemini true (answer (Some "7"))) (countOptions "r1")
              (wanted "count" ZNumber) 3 (start (Some [])) []
              {| id := "gen-1";
                 choices := Some [ {| message :=
                   Some {| msg_content := Some "7" |} |} ] |}
              {| msg_content := Some "7" |} "7"%char "" (JNum 7) (JNum 7)
              eq_refl eq_refl eq_refl eq_refl (fun _ => eq_refl)
              eq_refl eq_refl eq_refl eq_refl eq_refl)
    as (st' & Hrun & _ & Hget).
  exists st'. split; assumption.
Defined.

Lemma rejected_call_witness :
  exists st',
    createChatCompletion (tinyClient gpt true (Rejected "429 Too Many Requests"))
      (flagOptions "r1") 3 (start (Some (cached gpt (JNum 7))))
    = (Thrown "429 Too Many Requests", st')
    /\ length (calls st') = 1.
Proof.
  destruct (rejected_call_is_not_retried
              (tinyClient gpt true (Rejected "429 Too Many Requests"))
              (flagOptions "r1") 3 (start (Some (cached gpt (JNum 7))))
              "429 Too Many Requests")
    as (st' & Hrun & Hc).
  - right. eexists. split; [reflexivity|].
    intros v Hv; vm_compute in Hv; discriminate.
  - reflexivity.
  - exists st'. split; [exact Hrun|]. now rewrite Hc.
Defined.

(** ** More about the cleaning step *)

Lemma stripOpening_suffix (s : list ascii) :
  exists a, s = a ++ stripOpening s.
Proof.
  rewrite replace_opening.
  destruct (exec openingFence 0 s) as [[j s']|] eqn:He.
  - apply exec_sound in He. destruct He as (pre & Hs & _). now exists pre.
  - now exists [].
Qed.

Lemma stripClosing_prefix (s : list ascii) :
  exists b, s = stripClosing s ++ b.
Proof.
  rewrite stripClosing_eq.
  destruct (lit fence (trimStart (rev s))) as [q|] eqn:Hl;
    [|exists []; now rewrite app_nil_r].
  apply lit_Some in Hl. destruct (trimStart_split (rev s)) as (a & Hs & _).
  rewrite Hl in Hs.
  assert (Hq : exists d, q = d ++ dropPrefix [LF] q).
  { unfold dropPrefix. destruct (lit [LF] q) as [r|] eqn:Hr.
    - apply lit_Some in Hr. now exists [LF].
    - now exists []. }
  destruct Hq as (d & Hq).
  exists (rev d ++ fence ++ rev a).
  rewrite <- (rev_involutive s), Hs, !rev_app_distr, rev_fence.
  rewrite Hq at 1. now rewrite rev_app_distr, <- !app_assoc.
Qed.

Lemma trimEnd_prefix (s : list ascii) :
  exists w, s = trimEnd s ++ w /\ forallb is_ws w = true.
Proof.
  unfold trimEnd. destruct (trimStart_split (rev s)) as (a & Hs & Ha).
  exists (rev a). rewrite forallb_rev. split; [|assumption].
  rewrite <- (rev_involutive s) at 1. rewrite Hs at 1.
  now rewrite rev_app_distr.
Qed.

Lemma trimStart_head (s : list ascii) (c : ascii) (t : list ascii) :
  trimStart s = c :: t -> is_ws c = false.
Proof.
  induction s as [|d s IH]; cbn [trimStart]; [discriminate|].
  destruct (is_ws d) eqn:Hd; [exact IH|].
  intros H; inversion H; now subst.
Qed.

Lemma trimStart_idem (s : list ascii) : trimStart (trimStart s) = trimStart s.
Proof.
  destruct (trimStart s) as [|c t] eqn:Hs; [reflexivity|].
  cbn [trimStart]. now rewrite (trimStart_head _ _ _ Hs).
Qed.

Lemma trimEnd_idem (s : list ascii) : trimEnd (trimEnd s) = trimEnd s.
Proof.
  unfold trimEnd. now rewrite rev_involutive, trimStart_idem.
Qed.

Lemma trim_idem (s : list ascii) : trim (trim s) = trim s.
Proof.
  unfold trim.
  assert (Hs : trimStart (trimEnd (trimStart s)) = trimEnd (trimStart s)).
  { destruct (trimEnd_prefix (trimStart s)) as (w & Hw & _).
    destruct (trimEnd (trimStart s)) as [|c u] eqn:Hu; [reflexivity|].
    cbn [trimStart]. cbn [app] in Hw.
    now rewrite (trimStart_head _ _ _ Hw). }
  now rewrite Hs, trimEnd_idem.
Qed.

Lemma lit_LF_cons (r : list ascii) : lit [LF] (LF :: r) = Some r.
Proof.
  apply (lit_app [LF] r).
Qed.

(** A fenced block, with the tag json or without it, with any white space
    before the opening fence and after the closing one, is cleaned to the
    text between the two lines of the fences, trimmed, whatever that text
    holds. *)
Theorem fenced_block_is_extracted (ws tag body ws' : list ascii) :
  forallb is_ws ws = true ->
  forallb is_ws ws' = true ->
  tag = [] \/ tag = chars "json" ->
  cleanContent
    (text (ws ++ fence ++ tag ++ [LF] ++ body ++ [LF] ++ fence ++ ws'))
  = text (trim body).
Proof.
  intros Hws Hws' Htag. unfold cleanContent. rewrite chars_text.
  rewrite stripOpening_eq, (trimStart_ws_app _ _ Hws), trimStart_fence, lit_app.
  assert (Ho : afterOpening (tag ++ [LF] ++ body ++ [LF] ++ fence ++ ws')
               = (body ++ [LF]) ++ fence ++ ws').
  { unfold afterOpening, dropPrefix.
    destruct Htag as [-> | ->].
    - cbn [app].
      change (lit (chars "json") (LF :: ?r)) with (@None (list ascii)).
      cbv iota. rewrite lit_LF_cons. now rewrite <- app_assoc.
    - rewrite lit_app. cbn [app]. rewrite lit_LF_cons.
      now rewrite <- app_assoc. }
  rewrite Ho, stripClosing_eq.
  rewrite !rev_app_distr, rev_fence, <- !app_assoc.
  rewrite trimStart_ws_app by now rewrite forallb_rev.
  rewrite trimStart_fence, lit_app. cbn [rev app]. unfold dropPrefix.
  rewrite lit_LF_cons. now rewrite rev_involutive.
Qed.

(** The cleaning step only cuts at the two ends: what it returns stands in
    the text it was given, in one piece, and has no white space at either
    end. *)
Theorem cleanContent_keeps_a_piece (x : string) :
  (exists a b, chars x = a ++ chars (cleanContent x) ++ b)
  /\ trim (chars (cleanContent x)) = chars (cleanContent x).
Proof.
  unfold cleanContent. rewrite chars_text. split; [|apply trim_idem].
  destruct (stripOpening_suffix (chars x)) as (a & Ha).
  destruct (stripClosing_prefix (stripOpening (chars x))) as (b & Hb).
  set (u := stripClosing (stripOpening (chars x))) in *.
  destruct (trimStart_split u) as (a' & Ha' & _).
  destruct (trimEnd_prefix (trimStart u)) as (b' & Hb' & _).
  exists (a ++ a'), (b' ++ b). unfold trim.
  rewrite Ha at 1. rewrite Hb at 1. rewrite Ha' at 1. rewrite Hb' at 1.
  now rewrite <- !app_assoc.
Qed.

(** ** What a run does, attempt by attempt *)

Section Runs.

Context {E : Externs}.

Variable self : OpenRouterClient.
Variable options : Options.

(** A response is rejected, or it is one of the failures, or it is
    accepted. *)
Lemma response_cases (r : ApiResult) :
  (exists e, r = Rejected e)
  \/ (exists f, failureOf options r = Some f /\ successOf options r = None)
  \/ (exists v, successOf options r = Some v /\ failureOf options r = None).
Proof.
  unfold failureOf, successOf.
  destruct r as [e|[c|]]; [left; eauto | | right; left; cbn; eauto].
  destruct (firstMessage (Some c)) as [m|]; [|right; left; eauto].
  destruct (response_model options) as [rm|]; [|right; right; eauto].
  destruct (msg_content m) as [[|a data]|]; try (right; left; eauto; fail).
  destruct (JSON_parse _); [right; left; eauto|].
  destruct (Schema_parse _ _); [right; left; eauto | right; right; eauto].
Qed.

Lemma request_rejected (st : State) (e : string) :
  create self (calls st) (bodyOf self options (messages st) 1) = Rejected e ->
  exists st2,
    (forall retry, request self options retry st = (Thrown e, st2))
    /\ calls st2 = calls st ++ [bodyOf self options (messages st) 1]
    /\ messages st2 = messages st ++ pushed self options
    /\ cache st2 = cache st.
Proof.
  unfold request, bodyOf. rewrite applyResponseModel_eq.
  cbn [repeat concat]. rewrite app_nil_r. cbv zeta.
  change (calls (logger ?l (grow ?p st))) with (calls st).
  change (messages (logger ?l (grow ?p st))) with (messages st ++ p).
  intros ->. eexists. split; [reflexivity|]. now repeat split.
Qed.

Lemma request_accepted (st : State) (v : Value) :
  successOf options
    (create self (calls st) (bodyOf self options (messages st) 1)) = Some v ->
  exists st2,
    (forall retry, request self options retry st = (Returned v, st2))
    /\ calls st2 = calls st ++ [bodyOf self options (messages st) 1]
    /\ messages st2 = messages st ++ pushed self options
    /\ cache st2
       = stored self options (messages st ++ pushed self options) v (cache st).
Proof.
  unfold request, bodyOf. rewrite applyResponseModel_eq.
  cbn [repeat concat]. rewrite app_nil_r. cbv zeta.
  change (calls (logger ?l (grow ?p st))) with (calls st).
  change (messages (logger ?l (grow ?p st))) with (messages st ++ p).
  unfold successOf, extract, validateZodSchema, try_catch, store, stored.
  destruct (create self _ _) as [error|[r|]]; try discriminate.
  destruct (firstMessage (Some r)) as [m|] eqn:Hm; [|discriminate].
  destruct (response_model options) as [rm|].
  - destruct (msg_content m) as [[|a data]|]; try discriminate.
    destruct (JSON_parse _) as [error|parsedData]; [discriminate|].
    destruct (Schema_parse _ _); [discriminate|].
    intros H; inversion H; subst v.
    eexists; split; [reflexivity|].
    destruct (enableCaching self); now repeat split.
  - intros H; inversion H; subst v.
    eexists; split; [reflexivity|].
    destruct (enableCaching self); now repeat split.
Qed.

(** After a failure the run throws when no retry is left, and otherwise
    goes on with the retry from a state that does not depend on it. *)
Lemma request_failed (st : State) (f : Failure) :
  failureOf options
    (create self (calls st) (bodyOf self options (messages st) 1)) = Some f ->
  exists stN stS,
    request self options None st = (Thrown (errorOf f), stN)
    /\ (forall again, request self options (Some again) st = again stS)
    /\ calls stN = calls st ++ [bodyOf self options (messages st) 1]
    /\ calls stS = calls st ++ [bodyOf self options (messages st) 1]
    /\ messages stS = messages st ++ pushed self options
    /\ cache stN = cache st
    /\ cache stS = cache st.
Proof.
  unfold request, bodyOf. rewrite applyResponseModel_eq.
  cbn [repeat concat]. rewrite app_nil_r. cbv zeta.
  change (calls (logger ?l (grow ?p st))) with (calls st).
  change (messages (logger ?l (grow ?p st))) with (messages st ++ p).
  unfold failureOf, extract, validateZodSchema, try_catch, retryOrThrow.
  destruct (create self _ _) as [error|response]; [discriminate|].
  destruct response as [r|]; cbn [firstMessage];
    [|intros H; inversion H; subst; eexists _, _; split; [reflexivity|];
      split; [reflexivity|]; now repeat split].
  destruct (firstMessage (Some r)) as [m|] eqn:Hm; cbn [firstMessage] in Hm;
    rewrite Hm;
    [|intros H; inversion H; subst; eexists _, _; split; [reflexivity|];
      split; [reflexivity|]; now repeat split].
  destruct (response_model options) as [rm|]; [|discriminate].
  destruct (msg_content m) as [[|a data]|];
    try (intros H; inversion H; subst; eexists _, _; split; [reflexivity|];
         split; [reflexivity|]; now repeat split).
  destruct (JSON_parse _) as [error|parsedData];
    [intros H; inversion H; subst; eexists _, _; split; [reflexivity|];
     split; [reflexivity|]; now repeat split|].
  destruct (Schema_parse _ _); [|discriminate].
  intros H; inversion H; subst.
  eexists _, _; split; [reflexivity|]; split; [reflexivity|]; now repeat split.
Qed.

(** The three ways an attempt starts: the cache is on and there is no
    cache; the cache serves the request; or the request goes out. *)
Lemma attempt_spec (st : State) :
  let st1 := logger (creatingLog self options (messages st)) st in
  (enableCaching self = true /\ cache st = None
   /\ forall retry,
        attempt self options retry st
        = (Thrown "Cannot read properties of undefined (reading 'get')", st1))
  \/ (exists c v, enableCaching self = true /\ cache st = Some c
        /\ cache_get (cacheOptions self options (messages st))
             (requestId options) c = Some v
        /\ truthy v = true
        /\ forall retry,
             attempt self options retry st
             = (Returned v, logger (cacheHitLog options v) st1))
  \/ ((enableCaching self = false \/ exists c, cache st = Some c)
      /\ forall retry,
           attempt self options retry st = request self options retry st1).
Proof.
  unfold attempt. cbv zeta.
  change (cache (logger (creatingLog self options (messages st)) st))
    with (cache st).
  change (messages (logger (creatingLog self options (messages st)) st))
    with (messages st).
  destruct (enableCaching self); [|right; right; auto].
  destruct (cache st) as [c|]; [|left; auto].
  destruct (cache_get _ _ c) as [v|] eqn:Hg; [|right; right; eauto].
  destruct (truthy v) eqn:Hv; [|right; right; eauto].
  right; left. exists c, v. auto.
Qed.

(** One step of the retry loop, for every budget at once. *)
Lemma run_step (st : State) :
  let st1 := logger (creatingLog self options (messages st)) st in
  let body := bodyOf self options (messages st) 1 in
  let r := create self (calls st) body in
  (enableCaching self = true /\ cache st = None
   /\ forall n,
        createChatCompletion self options n st
        = (Thrown "Cannot read properties of undefined (reading 'get')", st1))
  \/ (exists c v, enableCaching self = true /\ cache st = Some c
        /\ cache_get (cacheOptions self options (messages st))
             (requestId options) c = Some v
        /\ truthy v = true
        /\ forall n,
             createChatCompletion self options n st
             = (Returned v, logger (cacheHitLog options v) st1))
  \/ ((enableCaching self = false \/ exists c, cache st = Some c)
      /\ ((exists e st2, r = Rejected e
             /\ (forall n,
                   createChatCompletion self options n st = (Thrown e, st2))
             /\ calls st2 = calls st ++ [body]
             /\ messages st2 = messages st ++ pushed self options
             /\ cache st2 = cache st)
          \/ (exists f stN stS, failureOf options r = Some f
                /\ createChatCompletion self options 0 st
                   = (Thrown (errorOf f), stN)
                /\ (forall n,
                      createChatCompletion self options (S n) st
                      = createChatCompletion self options n stS)
                /\ calls stN = calls st ++ [body]
                /\ calls stS = calls st ++ [body]
                /\ messages stS = messages st ++ pushed self options
                /\ cache stN = cache st
                /\ cache stS = cache st)
          \/ (exists v st2, successOf options r = Some v
                /\ (forall n,
                      createChatCompletion self options n st
                      = (Returned v, st2))
                /\ calls st2 = calls st ++ [body]
                /\ messages st2 = messages st ++ pushed self options
                /\ cache st2
                   = stored self options (messages st ++ pushed self options)
                       v (cache st)))).
Proof.
  cbv zeta.
  destruct (attempt_spec st) as [(Hen & Hc & Ha) | [(c & v & Hen & Hc & Hg & Hv & Ha) | (Hmiss & Ha)]].
  - left. repeat split; try assumption.
    intros n. rewrite createChatCompletion_unfold. apply Ha.
  - right; left. exists c, v. repeat split; try assumption.
    intros n. rewrite createChatCompletion_unfold. apply Ha.
  - right; right. split; [assumption|].
    set (st1 := logger (creatingLog self options (messages st)) st) in *.
    destruct (response_cases
                (create self (calls st) (bodyOf self options (messages st) 1)))
      as [(e & Hr) | [(f & Hf & _) | (v & Hs & _)]].
    + left. destruct (request_rejected st1 e Hr) as (st2 & Hq & Hcalls & Hm & Hk).
      exists e, st2. repeat split; try assumption.
      intros n. now rewrite createChatCompletion_unfold, Ha.
    + right; left.
      destruct (request_failed st1 f Hf)
        as (stN & stS & HN & HS & HcN & HcS & HmS & HkN & HkS).
      exists f, stN, stS. repeat split; try assumption.
      * now rewrite createChatCompletion_unfold, Ha.
      * intros n. now rewrite createChatCompletion_unfold, Ha, HS.
    + right; right.
      destruct (request_accepted st1 v Hs) as (st2 & Hq & Hcalls & Hm & Hk).
      exists v, st2. repeat split; try assumption.
      intros n. now rewrite createChatCompletion_unfold, Ha.
Qed.

Lemma failure_excludes_success (r : ApiResult) (f : Failure) :
  failureOf options r = Some f -> successOf options r = None.
Proof.
  intros Hf.
  destruct (response_cases r) as [(e & ->) | [(f' & _ & Hs) | (v & _ & Hn)]];
    [reflexivity | assumption | congruence].
Qed.

Lemma cache_after_run (retries : nat) :
  forall st out st',
    createChatCompletion self options retries st = (out, st') ->
    cache st' = cache st
    \/ exists v, out = Returned v /\ enableCaching self = true
         /\ cache st'
            = option_map
                (cache_set (cacheOptions self options (messages st')) v
                   (requestId options))
                (cache st).
Proof.
  induction retries as [|n IH]; intros st out st' H;
    destruct (run_step st)
      as [(_ & _ & Ha)
         | [(c & v & _ & _ & _ & _ & Ha)
           | (_ & [(e & st2 & _ & Ha & _ & _ & Hk)
                  | [(f & stN & stS & _ & H0 & HS & _ & _ & _ & HkN & HkS)
                    | (v & st2 & _ & Ha & _ & Hm & Hk)]])]];
    try (rewrite Ha in H; inversion H; subst; now left);
    try (rewrite Ha in H; inversion H; subst; unfold stored in Hk;
         destruct (enableCaching self); [right; exists v; rewrite Hm; auto | now left]).
  - rewrite H0 in H; inversion H; subst. now left.
  - rewrite HS in H. destruct (IH _ _ _ H) as [Hc | (v & Ho & Hen & Hc)].
    + left; congruence.
    + right. exists v. rewrite Hc, HkS. auto.
Qed.

(** The cache is written by a run only when the run returns a value with
    caching on, and then once, under the key of the messages as the run
    leaves them; a run that throws, and any run with caching off, leaves
    the cache as it was. *)
Theorem cache_written_only_on_success (retries : nat) (st : State) out st' :
  createChatCompletion self options retries st = (out, st') ->
  (cache st' = cache st
   \/ exists v, out = Returned v /\ enableCaching self = true
        /\ cache st'
           = option_map
               (cache_set (cacheOptions self options (messages st')) v
                  (requestId options))
               (cache st))
  /\ (forall e, out = Thrown e -> cache st' = cache st)
  /\ (enableCaching self = false -> cache st' = cache st).
Proof.
  intros H. pose proof (cache_after_run retries _ _ _ H) as Hc.
  split; [exact Hc|]. split.
  - intros e ->. destruct Hc as [Hc | (v & Ho & _)]; [assumption|discriminate].
  - intros Hoff. destruct Hc as [Hc | (v & _ & Hen & _)]; [assumption|congruence].
Qed.

(** What a run returns was served from the cache or was accepted from the
    provider: without a response_model it is a response of the provider
    that has a first message, and with one it is the data that JSON.parse
    made of the cleaned content of such a response and that the schema
    accepts (the parsed data itself, not what schema.parse returned). *)
Theorem returned_value_origin (retries : nat) :
  forall st v st',
    createChatCompletion self options retries st = (Returned v, st') ->
    (exists c msgs, enableCaching self = true /\ cache st = Some c
       /\ cache_get (cacheOptions self options msgs) (requestId options) c
          = Some v
       /\ truthy v = true)
    \/ exists sentBefore body c m,
         create self sentBefore body = Resolved (Some c)
         /\ firstMessage (Some c) = Some m
         /\ match response_model options with
            | None => v = Raw c
            | Some rm =>
                exists data d d',
                  msg_content m = Some data
                  /\ JSON_parse (cleanContent data) = inr d
                  /\ Schema_parse (schema rm) d = inr d'
                  /\ v = Parsed d
            end.
Proof.
  induction retries as [|n IH]; intros st v st' H;
    destruct (run_step st)
      as [(_ & _ & Ha)
         | [(c & w & Hen & Hc & Hg & Hw & Ha)
           | (_ & [(e & st2 & _ & Ha & _)
                  | [(f & stN & stS & _ & H0 & HS & _ & _ & _ & _ & HkS)
                    | (w & st2 & Hs & Ha & _)]])]];
    try (rewrite Ha in H; discriminate);
    try (rewrite Ha in H; inversion H; subst; left; eauto 10; fail);
    try (rewrite H0 in H; discriminate).
  - rewrite Ha in H; inversion H; subst. right. clear - Hs.
    unfold successOf in Hs.
    destruct (create self _ _) as [e|[c|]] eqn:Hr; try discriminate.
    destruct (firstMessage (Some c)) as [m|] eqn:Hm; [|discriminate].
    exists (calls st), (bodyOf self options (messages st) 1), c, m.
    split; [assumption|]. split; [assumption|].
    destruct (response_model options) as [rm|]; [|now inversion Hs].
    destruct (msg_content m) as [[|a data]|]; try discriminate.
    destruct (JSON_parse _) as [e|d] eqn:Hp; [discriminate|].
    destruct (Schema_parse _ _) as [e|d'] eqn:Hv; [discriminate|].
    inversion Hs; subst. eauto 10.
  - rewrite HS in H. destruct (IH _ _ _ H) as [(c & msgs & Hen & Hc & Hg) | Hp].
    + left. exists c, msgs. rewrite <- HkS. auto.
    + now right.
  - rewrite Ha in H; inversion H; subst. right. clear - Hs.
    unfold successOf in Hs.
    destruct (create self _ _) as [e|[c|]] eqn:Hr; try discriminate.
    destruct (firstMessage (Some c)) as [m|] eqn:Hm; [|discriminate].
    exists (calls st), (bodyOf self options (messages st) 1), c, m.
    split; [assumption|]. split; [assumption|].
    destruct (response_model options) as [rm|]; [|now inversion Hs].
    destruct (msg_content m) as [[|a data]|]; try discriminate.
    destruct (JSON_parse _) as [e|d] eqn:Hp; [discriminate|].
    destruct (Schema_parse _ _) as [e|d'] eqn:Hv; [discriminate|].
    inversion Hs; subst. eauto 10.
Qed.

(** The errors a run throws: the one of reading a cache that is not
    there, before any call; what a rejected call threw; or the error of a
    failure, and that only after the budget is used up, with the call that
    failed as the last of [retries + 1] calls. *)
Theorem thrown_errors (retries : nat) :
  forall st e st',
    createChatCompletion self options retries st = (Thrown e, st') ->
    (enableCaching self = true /\ cache st = None
     /\ e = "Cannot read properties of undefined (reading 'get')"
     /\ calls st' = calls st)
    \/ (exists sentBefore body,
          create self sentBefore body = Rejected e
          /\ calls st' = sentBefore ++ [body])
    \/ (exists f sentBefore body,
          failureOf options (create self sentBefore body) = Some f
          /\ e = errorOf f
          /\ calls st' = sentBefore ++ [body]
          /\ length (calls st') = length (calls st) + retries + 1).
Proof.
  induction retries as [|n IH]; intros st e st' H;
    destruct (run_step st)
      as [(Hen & Hc & Ha)
         | [(c & w & _ & _ & _ & _ & Ha)
           | (Hmiss & [(e' & st2 & Hr & Ha & Hcalls & _)
                      | [(f & stN & stS & Hf & H0 & HS & HcN & HcS & _ & _ & HkS)
                        | (w & st2 & _ & Ha & _)]])]];
    try (rewrite Ha in H; discriminate);
    try (rewrite Ha in H; inversion H; subst; left; auto; fail);
    try (rewrite Ha in H; inversion H; subst; right; left; eauto; fail).
  - rewrite H0 in H; inversion H; subst. right; right.
    exists f, (calls st), (bodyOf self options (messages st) 1).
    repeat split; try assumption. rewrite HcN, length_app. cbn. lia.
  - rewrite HS in H.
    destruct (IH _ _ _ H)
      as [(Hen & Hc & _) | [Hrej | (f' & sb & b & Hf' & He & Hc & Hlen)]].
    + exfalso. rewrite HkS in Hc.
      destruct Hmiss as [Hoff | (c & Hsome)]; congruence.
    + now right; left.
    + right; right. exists f', sb, b. repeat split; try assumption.
      rewrite Hlen, HcS, length_app. cbn. lia.
Qed.

(** A larger budget never changes a success: what a run returns with a
    budget it returns, in the same state, with every larger one. *)
Theorem budget_monotone (retries : nat) :
  forall st v st' retries',
    createChatCompletion self options retries st = (Returned v, st') ->
    retries <= retries' ->
    createChatCompletion self options retries' st = (Returned v, st').
Proof.
  induction retries as [|n IH]; intros st v st' n' H Hle;
    destruct (run_step st)
      as [(_ & _ & Ha)
         | [(c & w & _ & _ & _ & _ & Ha)
           | (_ & [(e' & st2 & _ & Ha & _)
                  | [(f & stN & stS & _ & H0 & HS & _)
                    | (w & st2 & _ & Ha & _)]])]];
    try (rewrite Ha in H; discriminate);
    try (rewrite Ha in *; assumption);
    try (rewrite H0 in H; discriminate).
  destruct n' as [|n']; [lia|].
  rewrite HS in *. apply IH; [assumption | lia].
Qed.

Lemma shift_calls (st : State) (j : nat) :
  (calls st ++ [bodyOf self options (messages st) 1])
    ++ map (bodyOf self options (messages st ++ pushed self options)) (seq 1 j)
  = calls st ++ map (bodyOf self options (messages st)) (seq 1 (S j)).
Proof.
  rewrite <- app_assoc. f_equal. cbn [seq map app]. f_equal.
  rewrite <- (seq_shift j 1), map_map. apply map_ext.
  intros k. now rewrite bodyOf_shift.
Qed.

Lemma recovery (k : nat) :
  forall st retries v,
    unserved self options st (S k) ->
    k <= retries ->
    (forall j, j < k ->
       failureOf options
         (create self
            (calls st ++ map (bodyOf self options (messages st)) (seq 1 j))
            (bodyOf self options (messages st) (S j))) <> None) ->
    successOf options
      (create self
         (calls st ++ map (bodyOf self options (messages st)) (seq 1 k))
         (bodyOf self options (messages st) (S k))) = Some v ->
    exists st',
      createChatCompletion self options retries st = (Returned v, st')
      /\ calls st'
         = calls st ++ map (bodyOf self options (messages st)) (seq 1 (S k)).
Proof.
  induction k as [|k IH]; intros st n v Hno Hle Hfail Hok;
    destruct (run_step st)
      as [(Hen & Hc & _)
         | [(c & w & Hen & Hc & Hg & Hw & _)
           | (_ & [(e' & st2 & Hr & _)
                  | [(f & stN & stS & Hf & H0 & HS & _ & HcS & HmS & _ & HkS)
                    | (w & st2 & Hs & Ha & Hcalls & _)]])]];
    try (exfalso;
         destruct (unserved_first self options st _ Hno)
           as [Hoff | (c' & Hc' & Hall)];
         [congruence | try congruence;
          rewrite Hc in Hc'; inversion Hc'; subst c';
          rewrite (Hall _ Hg) in Hw; discriminate]).
  - cbn [seq map] in Hok. rewrite app_nil_r in Hok. rewrite Hr in Hok.
    discriminate.
  - cbn [seq map] in Hok. rewrite app_nil_r in Hok.
    rewrite (failure_excludes_success _ _ Hf) in Hok. discriminate.
  - cbn [seq map] in Hok. rewrite app_nil_r in Hok.
    rewrite Hs in Hok; inversion Hok; subst w.
    exists st2. split; [apply Ha|]. now rewrite Hcalls.
  - specialize (Hfail 0 ltac:(lia)). cbn [seq map] in Hfail.
    rewrite app_nil_r, Hr in Hfail. now destruct Hfail.
  - destruct n as [|n]; [lia|]. rewrite HS.
    destruct (IH stS n v) as (st' & Hrun & Hc').
    + now apply (unserved_next self options st stS (S k) HkS HmS).
    + lia.
    + intros j Hj. rewrite HcS, HmS, shift_calls, bodyOf_shift.
      apply Hfail. lia.
    + now rewrite HcS, HmS, shift_calls, bodyOf_shift.
    + exists st'. split; [assumption|].
      now rewrite Hc', HcS, HmS, shift_calls.
  - specialize (Hfail 0 ltac:(lia)). cbn [seq map] in Hfail.
    rewrite app_nil_r in Hfail.
    pose proof (response_cases
                  (create self (calls st) (bodyOf self options (messages st) 1)))
      as [(e & He) | [(f & Hf & Hn) | (w' & _ & Hn)]]; try congruence.
    rewrite He in Hs. discriminate.
Qed.

(** The run recovers from failures within its budget: when none of the
    lookups of the cache made on the way is served, the first [k] calls fail
    in whatever way, the next one is accepted and [k] is at most the budget,
    the run returns the value of that call, after exactly [k + 1] calls;
    the call after [j] others sends the caller's messages as formatted and,
    for a response_model under a google/gemini model, [j + 1] copies of the
    instruction as user messages. *)
Theorem recovers_within_budget (k : nat) :
  forall st retries v,
    unserved self options st (S k) ->
    k <= retries ->
    (forall j, j < k ->
       failureOf options
         (create self
            (calls st ++ map (bodyOf self options (messages st)) (seq 1 j))
            (bodyOf self options (messages st) (S j))) <> None) ->
    successOf options
      (create self
         (calls st ++ map (bodyOf self options (messages st)) (seq 1 k))
         (bodyOf self options (messages st) (S k))) = Some v ->
    exists st',
      createChatCompletion self options retries st = (Returned v, st')
      /\ calls st'
         = calls st ++ map (bodyOf self options (messages st)) (seq 1 (S k))
      /\ length (calls st') = length (calls st) + k + 1
      /\ forall j body,
           nth_error (calls st') (length (calls st) + j) = Some body ->
           j <= k
           /\ b_model body = modelName self
           /\ b_messages body
              = map formatMessage (messages st)
                ++ match response_model options with
                   | Some rm =>
                       if prefix "google/gemini" (modelName self)
                       then repeat
                              {| w_role := user;
                                 w_content := WPlain
                                   ("Please format your response according to this schema:"
                                    ++ String LF (JSON_stringify (schema rm)
                                    ++ String LF (String LF
                                       "Respond with only the JSON object, no additional text or formatting."))) |}
                              (S j)
                       else []
                   | None => []
                   end.
Proof.
  intros st retries v Hno Hle Hfail Hok.
  destruct (recovery k st retries v Hno Hle Hfail Hok) as (st' & Hrun & Hc).
  exists st'. split; [exact Hrun|]. split; [exact Hc|]. split.
  - rewrite Hc, length_app, length_map, length_seq. lia.
  - intros j body Hnth.
    destruct (nth_sent_after self options st st' (messages st) (S k) j body
                Hc Hnth) as (Hj & ->).
    split; [lia|]. split; [reflexivity|].
    apply bodyOf_messages.
Qed.

Lemma cache_get_set_same (key : CacheOptions) (v : Value) (rid rid' : string)
  (c : LLMCache) :
  cache_get key rid (cache_set key v rid' c) = Some v.
Proof.
  unfold cache_set. cbn [cache_get].
  now destruct (CacheOptions_eq_dec key key).
Qed.

Lemma returned_is_cached (retries : nat) :
  forall st c v st',
    enableCaching self = true ->
    cache st = Some c ->
    createChatCompletion self options retries st = (Returned v, st') ->
    exists c', cache st' = Some c'
      /\ cache_get (cacheOptions self options (messages st'))
           (requestId options) c' = Some v.
Proof.
  induction retries as [|n IH]; intros st c v st' Hen Hc H;
    destruct (run_step st)
      as [(_ & _ & Ha)
         | [(c0 & w & _ & Hc0 & Hg & _ & Ha)
           | (_ & [(e' & st2 & _ & Ha & _)
                  | [(f & stN & stS & _ & H0 & HS & _ & _ & _ & _ & HkS)
                    | (w & st2 & _ & Ha & _ & Hm & Hk)]])]];
    try (rewrite Ha in H; discriminate);
    try (rewrite H0 in H; discriminate);
    try (rewrite Ha in H; inversion H; subst; exists c0; split; assumption);
    try (rewrite Ha in H; inversion H; subst;
         unfold stored in Hk; rewrite Hen, Hc in Hk; cbn [option_map] in Hk;
         eexists; split; [exact Hk|]; rewrite Hm; apply cache_get_set_same).
  rewrite HS in H. apply (IH stS c); congruence.
Qed.

(** What a run returned with caching on is served to the next call made
    with the same options object, as the run left it: a truthy value comes
    back as it is, without a call to the provider, whatever the request
    identifier and the budget of that next call. *)
Theorem stored_result_is_served (retries : nat) (st : State) (c : LLMCache)
  (v : Value) (st1 : State) :
  enableCaching self = true ->
  cache st = Some c ->
  createChatCompletion self options retries st = (Returned v, st1) ->
  truthy v = true ->
  forall options' retries',
    sameContent options options' ->
    exists st2,
      createChatCompletion self options' retries' st1 = (Returned v, st2)
      /\ calls st2 = calls st1.
Proof.
  intros Hen Hc Hrun Hv options' n' (Ht & Hp & Hf & Hpp & Hi & Hr).
  destruct (returned_is_cached retries st c v st1 Hen Hc Hrun) as (c' & Hc' & Hg).
  eexists; split.
  - apply (cache_hit self options' n' st1 c' v); try assumption.
    rewrite (cache_get_ignores_requestId _ _ (requestId options)).
    unfold cacheOptions in *.
    now rewrite <- Ht, <- Hp, <- Hf, <- Hpp, <- Hi, <- Hr.
  - reflexivity.
Qed.

Lemma formatMessage_image (m : ChatMessage) (parts : list WirePart)
  (url : string) :
  w_content (formatMessage m) = WParts parts ->
  In (ImagePart url) parts ->
  w_role (formatMessage m) = user
  /\ exists parts', role m = user /\ content m = Parts parts'
       /\ In (ImageContent url) parts'.
Proof.
  unfold formatMessage. destruct m as [r [s|ps]]; cbn [content role];
    [discriminate|].
  destruct r; cbn [w_content w_role]; intros H Hin; inversion H; subst parts;
    try (apply filter_In in Hin; destruct Hin as [_ Hin]; discriminate).
  split; [reflexivity|]. exists ps. repeat split.
  apply in_map_iff in Hin. destruct Hin as ([u|t] & Hu & Hin);
    inversion Hu; now subst.
Qed.

(** An image reaches the provider in a user message only: in every body a
    run sends, a message that carries an image part has the role user, and
    the part is an image part of a user message of the conversation. *)
Theorem images_only_in_user_turns (retries : nat) (st : State) out st' :
  createChatCompletion self options retries st = (out, st') ->
  exists sentNow, calls st' = calls st ++ sentNow
    /\ forall body wm parts url,
         In body sentNow ->
         In wm (b_messages body) ->
         w_content wm = WParts parts ->
         In (ImagePart url) parts ->
         w_role wm = user
         /\ exists m parts',
              In m (messages st') /\ role m = user
              /\ content m = Parts parts' /\ In (ImageContent url) parts'.
Proof.
  intros H. apply createChatCompletion_trace in H.
  destruct H as (n & _ & Hc & Hm).
  eexists; split; [exact Hc|].
  intros body wm parts url Hb Hw Hp Hin.
  apply in_map_iff in Hb. destruct Hb as (k & <- & Hk). apply in_seq in Hk.
  unfold bodyOf in Hw. cbn [mkBody b_messages] in Hw.
  apply in_map_iff in Hw. destruct Hw as (m & <- & Hm').
  destruct (formatMessage_image m parts url Hp Hin)
    as (Hrole & parts' & Hr & Hcont & Hin').
  split; [assumption|]. exists m, parts'. repeat split; try assumption.
  rewrite Hm. apply in_app_or in Hm'. apply in_or_app.
  destruct Hm' as [Hm' | Hm']; [now left | right].
  apply in_concat in Hm'. destruct Hm' as (l & Hl & Hml).
  apply repeat_spec in Hl; subst l.
  apply in_concat. exists (pushed self options). split; [|assumption].
  destruct n as [|n]; [lia|]. now left.
Qed.

(** The bodies of one run differ in their messages at most: model, stream,
    sampling parameters, tools, response format and the response_model
    passed along are those of the first call in every call.  When nothing
    is pushed (no response_model, or a model name that does not start with
    google/gemini) every retry sends the very body of the first call, and
    the caller's messages are left as they were. *)
Theorem retries_repeat_the_request (retries : nat) (st : State) out st' :
  createChatCompletion self options retries st = (out, st') ->
  exists n, n <= retries + 1
    /\ length (calls st') = length (calls st) + n
    /\ (forall body, In body (skipn (length (calls st)) (calls st')) ->
          b_model body = modelName self
          /\ b_stream body = false
          /\ b_temperature body = temperature options
          /\ b_top_p body = top_p options
          /\ b_frequency_penalty body = frequency_penalty options
          /\ b_presence_penalty body = presence_penalty options
          /\ b_response_model body = response_model options
          /\ b_tools body = option_map (map formatTool) (tools options)
          /\ b_response_format body = responseFormatOf self options)
    /\ (response_model options = None
        \/ prefix "google/gemini" (modelName self) = false ->
        messages st' = messages st
        /\ calls st'
           = calls st
             ++ repeat (mkBody self options (responseFormatOf self options)
                          (messages st)) n).
Proof.
  intros H. apply createChatCompletion_trace in H.
  destruct H as (n & Hn & Hc & Hm).
  exists n. split; [lia|]. split; [|split].
  - now rewrite Hc, length_app, length_map, length_seq.
  - intros body Hb. rewrite Hc, skipn_app, Nat.sub_diag, skipn_all in Hb.
    cbn [app skipn] in Hb. apply in_map_iff in Hb.
    destruct Hb as (k & <- & _). unfold bodyOf. cbn. now repeat split.
  - intros Hnone.
    assert (Hp : pushed self options = []).
    { unfold pushed, isGemini.
      destruct Hnone as [-> | ->]; [reflexivity|].
      now destruct (response_model options). }
    rewrite Hp, concat_repeat_nil, app_nil_r in Hm. split; [exact Hm|].
    rewrite Hc. f_equal. generalize 1.
    clear - Hp. induction n as [|n IH]; intros a; cbn [seq map repeat];
      [reflexivity|].
    rewrite IH. f_equal. unfold bodyOf.
    now rewrite Hp, concat_repeat_nil, app_nil_r.
Qed.

Lemma attempt_withCache (c : option LLMCache) (retry retry' : option Run)
  (st : State) :
  enableCaching self = false ->
  match retry, retry' with
  | Some again, Some again' =>
      forall s, again' (withCache c s)
                = (fst (again s), withCache c (snd (again s)))
  | None, None => True
  | _, _ => False
  end ->
  attempt self options retry' (withCache c st)
  = (fst (attempt self options retry st),
     withCache c (snd (attempt self options retry st))).
Proof.
  intros Hoff Hretry. unfold attempt, request. rewrite Hoff. cbv zeta.
  rewrite !applyResponseModel_eq.
  cbn [calls messages logger grow sent withCache].
  unfold extract, validateZodSchema, try_catch, retryOrThrow, store.
  rewrite Hoff.
  cbn [calls messages logger grow sent withCache].
  destruct retry as [again|], retry' as [again'|]; try contradiction;
    (destruct (create self _ _) as [e|[r|]]; [reflexivity| |];
     [destruct (firstMessage (Some r)) as [m|];
      [destruct (response_model options) as [rm|];
       [destruct (msg_content m) as [[|a d]|];
        [| destruct (JSON_parse _);
           [| destruct (Schema_parse _ _)] |] |] |] |]);
    first [ reflexivity
          | match goal with
            | |- _ = (fst (again ?S), _) => exact (Hretry S)
            end ].
Qed.

Lemma run_withCache (retries : nat) :
  enableCaching self = false ->
  forall (c : option LLMCache) (st : State),
    createChatCompletion self options retries (withCache c st)
    = (fst (createChatCompletion self options retries st),
       withCache c (snd (createChatCompletion self options retries st))).
Proof.
  intros Hoff. induction retries as [|n IH]; intros c st.
  - rewrite !(createChatCompletion_unfold self options 0).
    now apply (attempt_withCache c None None).
  - rewrite !(createChatCompletion_unfold self options (S n)).
    apply (attempt_withCache c
             (Some (createChatCompletion self options n))
             (Some (createChatCompletion self options n)));
      [assumption | exact (IH c)].
Qed.

(** With caching off a run neither reads nor writes the cache: whatever
    stands in the place of the cache, the run has the same outcome, sends
    the same bodies, logs the same events and leaves the same messages,
    and what stood in the place of the cache still stands there. *)
Theorem caching_off_ignores_cache (retries : nat) (c : option LLMCache)
  (st : State) :
  enableCaching self = false ->
  fst (createChatCompletion self options retries (withCache c st))
  = fst (createChatCompletion self options retries st)
  /\ calls (snd (createChatCompletion self options retries (withCache c st)))
     = calls (snd (createChatCompletion self options retries st))
  /\ logs (snd (createChatCompletion self options retries (withCache c st)))
     = logs (snd (createChatCompletion self options retries st))
  /\ messages (snd (createChatCompletion self options retries (withCache c st)))
     = messages (snd (createChatCompletion self options retries st))
  /\ cache (snd (createChatCompletion self options retries (withCache c st)))
     = c.
Proof.
  intros Hoff. rewrite (run_withCache retries Hoff c st). now repeat split.
Qed.

End Runs.

(** ** What the log holds *)

Section Logged.

Context {E : Externs}.

Variable self : OpenRouterClient.
Variable options : Options.

Lemma explained_lines (pre new : list LogLine) (out : Outcome) :
  (forall l, In l pre -> level l = 0 -> forall o, explained self options o l) ->
  (forall l, In l new -> level l = 0 -> explained self options out l) ->
  forall l, In l (pre ++ new) -> level l = 0 -> explained self options out l.
Proof.
  intros Hpre Hnew l Hl Hlev. apply in_app_or in Hl. destruct Hl as [Hl|Hl].
  - now apply Hpre.
  - now apply Hnew.
Qed.

Lemma retryOrThrow_logs (retry : option Run) (error : string)
  (st0 st : State) (pre : list LogLine) out st' :
  (forall again, retry = Some again ->
     forall st out st', again st = (out, st') ->
       exists new, logs st' = logs st ++ new
         /\ forall l, In l new -> level l = 0 -> explained self options out l) ->
  logs st = logs st0 ++ pre ->
  (forall l, In l pre -> level l = 0 -> forall o, explained self options o l) ->
  retryOrThrow retry error st = (out, st') ->
  exists new, logs st' = logs st0 ++ new
    /\ forall l, In l new -> level l = 0 -> explained self options out l.
Proof.
  intros Hretry Hlogs Hpre. unfold retryOrThrow.
  destruct retry as [again|].
  - intros H. destruct (Hretry again eq_refl _ _ _ H) as (new & Hnew & Hex).
    exists (pre ++ new). split.
    + now rewrite Hnew, Hlogs, app_assoc.
    + now apply explained_lines.
  - intros H; inversion H; subst. exists pre. split; [assumption|].
    intros l Hl Hlev. now apply Hpre.
Qed.

Ltac level_one :=
  let l := fresh "l" in
  let Hl := fresh "Hl" in
  let Hlev := fresh "Hlev" in
  intros l Hl Hlev; cbn [In app] in Hl;
  repeat (destruct Hl as [Hl|Hl]; [subst l; try discriminate Hlev|]);
  try contradiction.

Lemma request_logs (retry : option Run) :
  (forall again, retry = Some again ->
     forall st out st', again st = (out, st') ->
       exists new, logs st' = logs st ++ new
         /\ forall l, In l new -> level l = 0 -> explained self options out l) ->
  forall st out st', request self options retry st = (out, st') ->
    exists new,
      logs st' = logs st ++ new
      /\ forall l, In l new -> level l = 0 -> explained self options out l.
Proof.
  intros Hretry st out st'. unfold request.
  rewrite applyResponseModel_eq. cbv zeta.
  destruct (create self _ _) as [e|response] eqn:Hcreate.
  - intros H; inversion H; subst. cbn [logs sent logger grow].
    eexists; split; [reflexivity|]. level_one.
  - destruct response as [r|];
      [destruct (firstMessage (Some r)) as [m|] eqn:Hm|].
    + destruct (response_model options) as [rm|] eqn:Hrm.
      * unfold extract.
        destruct (msg_content m) as [[|a data]|] eqn:Hcontent.
        -- intros H. eapply retryOrThrow_logs;
             [exact Hretry | | | exact H];
             [cbn [logs sent logger grow]; rewrite <- app_assoc; reflexivity|].
           level_one.
        -- destruct (JSON_parse (cleanContent (String a data)))
             as [error|parsedData] eqn:Hparse.
           ++ intros H. eapply retryOrThrow_logs;
                [exact Hretry | | | exact H];
                [cbn [logs sent logger grow]; rewrite <- !app_assoc;
                 reflexivity|].
              level_one. intros o. exists error, (String a data).
              split; [reflexivity|]. left.
              eexists _, _, r, m, rm. eauto.
           ++ unfold validateZodSchema, try_catch.
              destruct (Schema_parse (schema rm) parsedData) as [error|d].
              ** destruct retry as [again|].
                 --- intros H.
                     eapply (retryOrThrow_logs (Some again) EmptyString);
                       [exact Hretry | | | exact H];
                       [cbn [logs sent logger grow]; rewrite <- app_assoc;
                        reflexivity|].
                     level_one.
                 --- cbn [retryOrThrow]. intros H; inversion H; subst.
                     cbn [logs sent logger grow]. rewrite <- !app_assoc.
                     eexists; split; [reflexivity|]. level_one.
                     eexists _, _. split; [reflexivity|]. right. now split.
              ** intros H; inversion H; subst. unfold store.
                 destruct (enableCaching self); cbn [logs sent logger grow];
                   rewrite <- app_assoc; (eexists; split; [reflexivity|]);
                   level_one.
        -- intros H. eapply retryOrThrow_logs;
             [exact Hretry | | | exact H];
             [cbn [logs sent logger grow]; rewrite <- app_assoc; reflexivity|].
           level_one.
      * intros H; inversion H; subst. unfold store.
        destruct (enableCaching self); cbn [logs sent logger grow];
          rewrite <- app_assoc; (eexists; split; [reflexivity|]); level_one.
    + cbn [firstMessage] in Hm. rewrite ?Hm. intros H.
      eapply retryOrThrow_logs; [exact Hretry | | | exact H];
        [cbn [logs sent logger grow]; rewrite <- app_assoc; reflexivity|].
      level_one.
    + cbn [firstMessage]. intros H.
      eapply retryOrThrow_logs; [exact Hretry | | | exact H];
        [cbn [logs sent logger grow]; rewrite <- app_assoc; reflexivity|].
      level_one.
Qed.

Lemma attempt_logs (retry : option Run) :
  (forall again, retry = Some again ->
     forall st out st', again st = (out, st') ->
       exists new, logs st' = logs st ++ new
         /\ forall l, In l new -> level l = 0 -> explained self options out l) ->
  forall st out st', attempt self options retry st = (out, st') ->
    exists new,
      logs st' = logs st ++ creatingLog self options (messages st) :: new
      /\ forall l, In l new -> level l = 0 -> explained self options out l.
Proof.
  intros Hretry st out st'. unfold attempt. cbv zeta.
  change (cache (logger (creatingLog self options (messages st)) st))
    with (cache st).
  change (messages (logger (creatingLog self options (messages st)) st))
    with (messages st).
  assert (Hreq :
    request self options retry
      (logger (creatingLog self options (messages st)) st) = (out, st') ->
    exists new,
      logs st' = logs st ++ creatingLog self options (messages st) :: new
      /\ forall l, In l new -> level l = 0 -> explained self options out l).
  { intros H. destruct (request_logs retry Hretry _ _ _ H) as (new & Hnew & Hex).
    exists new. split; [|exact Hex].
    rewrite Hnew. cbn [logs logger]. now rewrite <- app_assoc. }
  destruct (enableCaching self); [|exact Hreq].
  destruct (cache st) as [c|].
  - destruct (cache_get _ _ c) as [v|]; [|exact Hreq].
    destruct (truthy v); [|exact Hreq].
    intros H; inversion H; subst. cbn [logs logger].
    rewrite <- app_assoc. eexists; split; [reflexivity|]. level_one.
  - intros H; inversion H; subst. cbn [logs logger].
    exists []. split; [reflexivity|]. level_one.
Qed.

(** A run only adds to the log, and first the line that announces it;
    every error-level line it adds is the event of a parse failure, either
    with the content of a response and what [JSON.parse] said of it, or
    with the message of the schema check, and then the run has thrown that
    message as a parse failure. *)
Theorem error_lines_are_parse_failures (retries : nat) :
  forall st out st',
    createChatCompletion self options retries st = (out, st') ->
    exists new,
      logs st' = logs st ++ creatingLog self options (messages st) :: new
      /\ forall l, In l new -> level l = 0 -> explained self options out l.
Proof.
  induction retries as [|n IH]; intros st out st';
    rewrite createChatCompletion_unfold; apply attempt_logs.
  - discriminate.
  - intros again Hagain st0 out0 st0' H. inversion Hagain; subst again.
    destruct (IH _ _ _ H) as (new & Hnew & Hex).
    eexists; split; [exact Hnew|].
    intros l [<-|Hl] Hlev; [discriminate Hlev | now apply Hex].
Qed.

End Logged.

(** ** The constructor *)

Section Constructed.

Context {E : Externs}.

Variable OptionValue : Type.
Variable str : string -> OptionValue.
Variable OpenAI : JsObject OptionValue -> list Body -> Body -> ApiResult.

Lemma property_spreadWith_other (o : option (JsObject OptionValue))
  (k k' : string) (v : OptionValue) :
  k' <> k ->
  property k' (spreadWith o k v)
  = match o with
    | Some o' => property k' o'
    | None => None
    end.
Proof.
  intros Hk. unfold spreadWith. cbn [property].
  replace (String.eqb k' k) with false
    by (symmetry; now apply String.eqb_neq).
  destruct o as [o|]; [|reflexivity].
  induction o as [|[k0 v0] o IH]; cbn [filter property fst]; [reflexivity|].
  destruct (String.eqb k k0) eqn:Hk0; cbn [negb property].
  - apply String.eqb_eq in Hk0; subst k0.
    replace (String.eqb k' k) with false
      by (symmetry; now apply String.eqb_neq).
    exact IH.
  - now rewrite IH.
Qed.

(** The client the constructor builds talks to the address of OpenRouter
    whatever base URL the caller's clientOptions name, and hands the other
    options of the caller to the openai package as they are.  Built
    without enableCaching, it has caching off: its runs behave as if no
    cache had been given, and leave the cache that was given as it is. *)
Theorem constructed_client (args : ConstructorArgs OptionValue) :
  create (this (constructor str OpenAI args))
  = OpenAI (openAIConfig str args)
  /\ property "baseURL" (openAIConfig str args) = Some (str openRouterURL)
  /\ (forall k, k <> "baseURL" ->
        property k (openAIConfig str args)
        = match arg_clientOptions args with
          | Some o => property k o
          | None => None
          end)
  /\ (arg_enableCaching args = None ->
      forall options retries msgs,
        let self := this (constructor str OpenAI args) in
        let bare :=
          {| messages := msgs; cache := None; calls := []; logs := [] |} in
        createChatCompletion self options retries
          (firstState (constructor str OpenAI args) msgs)
        = (fst (createChatCompletion self options retries bare),
           withCache (arg_cache args)
             (snd (createChatCompletion self options retries bare)))).
Proof.
  split; [reflexivity|]. split; [reflexivity|]. split.
  - intros k Hk. now apply property_spreadWith_other.
  - intros Hnone options retries msgs self bare.
    change (firstState (constructor str OpenAI args) msgs)
      with (withCache (arg_cache args) bare).
    apply (run_withCache self options retries).
    subst self. cbn. now rewrite Hnone.
Qed.

End Constructed.

(** ** The further statements at work on the small environment *)

Lemma fenced_block_witness :
  cleanContent
    (text ([LF] ++ fence ++ chars "json" ++ [LF] ++ chars "{}" ++ [LF]
           ++ fence ++ chars " "))
  = text (trim (chars "{}")).
Proof.
  apply fenced_block_is_extracted;
    [reflexivity | reflexivity | right; reflexivity].
Defined.

Lemma cache_written_witness :
  cache (snd (createChatCompletion (tinyClient gpt true emptyAnswer)
                (countOptions "r1") 1 (start (Some (cached gpt (JNum 0))))))
  = Some (cached gpt (JNum 0)).
Proof.
  destruct (cache_written_only_on_success (tinyClient gpt true emptyAnswer)
              (countOptions "r1") 1 (start (Some (cached gpt (JNum 0)))) _ _
              (surjective_pairing _)) as (_ & Hthrown & _).
  apply (Hthrown "Invalid or empty response from OpenRouter API").
  reflexivity.
Defined.

Lemma returned_value_witness :
  (exists c msgs, enableCaching (sevenClient false) = true
     /\ cache (start None) = Some c
     /\ cache_get (cacheOptions (sevenClient false) (countOptions "r1") msgs)
          "r1" c = Some (@Parsed tiny (JNum 7))
     /\ truthy (@Parsed tiny (JNum 7)) = true)
  \/ exists sentBefore body c m,
       create (sevenClient false) sentBefore body = Resolved (Some c)
       /\ firstMessage (Some c) = Some m
       /\ exists data (d d' : @Json tiny),
            msg_content m = Some data
            /\ @JSON_parse tiny (cleanContent data) = inr d
            /\ @Schema_parse tiny ZNumber d = inr d'
            /\ @Parsed tiny (JNum 7) = Parsed d.
Proof.
  apply (returned_value_origin (sevenClient false) (countOptions "r1") 0
           (start None) (@Parsed tiny (JNum 7))
           (snd (createChatCompletion (sevenClient false) (countOptions "r1") 0
                   (start None)))).
  reflexivity.
Defined.

Lemma thrown_errors_witness :
  (enableCaching (tinyClient gpt false emptyAnswer) = true
   /\ cache (start None) = None
   /\ "Invalid or empty response from OpenRouter API"
      = "Cannot read properties of undefined (reading 'get')"
   /\ calls (snd (createChatCompletion (tinyClient gpt false emptyAnswer)
                    (countOptions "r1") 2 (start None)))
      = calls (start None))
  \/ (exists sentBefore body,
        create (tinyClient gpt false emptyAnswer) sentBefore body
        = Rejected "Invalid or empty response from OpenRouter API"
        /\ calls (snd (createChatCompletion (tinyClient gpt false emptyAnswer)
                         (countOptions "r1") 2 (start None)))
           = sentBefore ++ [body])
  \/ (exists f sentBefore body,
        failureOf (countOptions "r1")
          (create (tinyClient gpt false emptyAnswer) sentBefore body) = Some f
        /\ "Invalid or empty response from OpenRouter API" = errorOf f
        /\ calls (snd (createChatCompletion (tinyClient gpt false emptyAnswer)
                         (countOptions "r1") 2 (start None)))
           = sentBefore ++ [body]
        /\ length (calls (snd (createChatCompletion
                                 (tinyClient gpt false emptyAnswer)
                                 (countOptions "r1") 2 (start None))))
           = length (calls (start None)) + 2 + 1).
Proof.
  apply (thrown_errors (tinyClient gpt false emptyAnswer) (countOptions "r1") 2
           (start None)).
  reflexivity.
Defined.

Lemma budget_monotone_witness :
  createChatCompletion (sevenClient false) (countOptions "r1") 5 (start None)
  = (Returned (@Parsed tiny (JNum 7)),
     snd (createChatCompletion (sevenClient false) (countOptions "r1") 0
            (start None))).
Proof.
  apply (budget_monotone (sevenClient false) (countOptions "r1") 0);
    [reflexivity | lia].
Defined.

Lemma recovers_witness :
  exists st',
    createChatCompletion (flaky true) (countOptions "r1") 3
      (start (Some (cached gpt (JNum 7))))
    = (Returned (@Parsed tiny (JNum 7)), st')
    /\ length (calls st') = 3.
Proof.
  destruct (recovers_within_budget (flaky true) (countOptions "r1") 2
              (start (Some (cached gpt (JNum 7)))) 3 (@Parsed tiny (JNum 7)))
    as (st' & Hrun & _ & Hlen & _).
  - intros j Hj. right. eexists. split; [reflexivity|].
    destruct j as [|[|[|j]]]; [ | | | lia];
      intros v Hv; vm_compute in Hv; discriminate.
  - lia.
  - intros j Hj. destruct j as [|[|j]]; [discriminate | discriminate | lia].
  - reflexivity.
  - exists st'. split; [exact Hrun | exact Hlen].
Defined.

Lemma stored_result_witness :
  exists st2,
    createChatCompletion geminiSeven (countOptions "r2") 4
      (snd (createChatCompletion geminiSeven (countOptions "r1") 0
              (start (Some []))))
    = (Returned (@Parsed tiny (JNum 7)), st2)
    /\ calls st2
       = calls (snd (createChatCompletion geminiSeven (countOptions "r1") 0
                       (start (Some [])))).
Proof.
  apply (stored_result_is_served geminiSeven (countOptions "r1") 0
           (start (Some [])) [] (@Parsed tiny (JNum 7))
           (snd (createChatCompletion geminiSeven (countOptions "r1") 0
                   (start (Some [])))));
    try reflexivity.
  now repeat split.
Defined.

Lemma images_witness :
  exists sentNow,
    calls (snd (createChatCompletion (sevenClient false) (countOptions "r1") 1
                  pictures))
    = calls pictures ++ sentNow
    /\ forall body wm parts url,
         In body sentNow ->
         In wm (b_messages body) ->
         w_content wm = WParts parts ->
         In (ImagePart url) parts ->
         w_role wm = user
         /\ exists m parts',
              In m (messages (snd (createChatCompletion (sevenClient false)
                                     (countOptions "r1") 1 pictures)))
              /\ role m = user
              /\ content m = Parts parts' /\ In (ImageContent url) parts'.
Proof.
  apply (images_only_in_user_turns (sevenClient false) (countOptions "r1") 1
           pictures _ _ (surjective_pairing _)).
Defined.

Lemma retries_repeat_witness :
  exists n, n <= 2 + 1
    /\ calls (snd (createChatCompletion (tinyClient gpt false emptyAnswer)
                     (countOptions "r1") 2 (start None)))
       = calls (start None)
         ++ repeat (mkBody (tinyClient gpt false emptyAnswer)
                      (countOptions "r1")
                      (responseFormatOf (tinyClient gpt false emptyAnswer)
                         (countOptions "r1"))
                      (messages (start None))) n.
Proof.
  destruct (retries_repeat_the_request (tinyClient gpt false emptyAnswer)
              (countOptions "r1") 2 (start None) _ _ (surjective_pairing _))
    as (n & Hn & _ & _ & Hsame).
  exists n. split; [exact Hn|].
  apply Hsame. right; reflexivity.
Defined.

Lemma caching_off_witness :
  fst (createChatCompletion (sevenClient false) (countOptions "r1") 1
         (withCache (Some (cached gpt (JNum 1))) (start None)))
  = fst (createChatCompletion (sevenClient false) (countOptions "r1") 1
           (start None))
  /\ cache (snd (createChatCompletion (sevenClient false) (countOptions "r1") 1
                   (withCache (Some (cached gpt (JNum 1))) (start None))))
     = Some (cached gpt (JNum 1)).
Proof.
  destruct (caching_off_ignores_cache (sevenClient false) (countOptions "r1") 1
              (Some (cached gpt (JNum 1))) (start None) eq_refl)
    as (Hout & _ & _ & _ & Hcache).
  split; assumption.
Defined.

Lemma constructed_client_witness :
  property "baseURL" (openAIConfig (fun s => s) givenArgs)
  = Some openRouterURL
  /\ property "apiKey" (openAIConfig (fun s => s) givenArgs)
     = Some "sk-or-v1"
  /\ createChatCompletion
       (this (constructor (fun s => s) tinyOpenAI givenArgs))
       (countOptions "r1") 3
       (firstState (constructor (fun s => s) tinyOpenAI givenArgs) ask)
     = (Returned (@Parsed tiny (JNum 7)),
        withCache (Some (cached gpt (JNum 1)))
          (snd (createChatCompletion
                  (this (constructor (fun s => s) tinyOpenAI givenArgs))
                  (countOptions "r1") 3 (start None)))).
Proof.
  destruct (constructed_client string (fun s => s) tinyOpenAI givenArgs)
    as (_ & Hurl & Hother & Hoff).
  split; [exact Hurl|]. split.
  - rewrite Hother by discriminate. reflexivity.
  - rewrite (Hoff eq_refl (countOptions "r1") 3 ask). reflexivity.
Defined.

Lemma error_lines_witness :
  exists new,
    logs (snd (createChatCompletion (tinyClient gpt false (answer (Some "true")))
                 (countOptions "r1") 1 (start None)))
    = logs (start None)
      ++ creatingLog (tinyClient gpt false (answer (Some "true")))
           (countOptions "r1") (messages (start None)) :: new
    /\ forall l, In l new -> level l = 0 ->
         explained (tinyClient gpt false (answer (Some "true")))
           (countOptions "r1")
           (fst (createChatCompletion
                   (tinyClient gpt false (answer (Some "true")))
                   (countOptions "r1") 1 (start None))) l.
Proof.
  apply (error_lines_are_parse_failures
           (tinyClient gpt false (answer (Some "true"))) (countOptions "r1") 1
           (start None) _ _ (surjective_pairing _)).
Defined.
